(** * react-grid-layout: the layout engine and its interaction controller

A shallow embedding of the grid-layout sources:

- [GridItem.js]  (pixel to grid conversion, [onResizeHandler],
  [onDragHandler]),
- [ReactGridLayout.js]  (the drag / resize session handlers,
  [handleLayoutMaybeChanged], [processGridItem]),
- [ResponsiveReactGridLayout.js]  ([onWidthChange], [onLayoutChange]).

The helpers these files import from [./utils] and [./responsiveUtils]
([collides], [getAllCollisions], [getLayoutItem], [compact],
[moveElement], [getBreakpointFromWidth], ...) are described by the
specification only; their definitions below are marked
"Modelled from the spec".

JavaScript objects that are mutated in place are kept in an explicit
store, so that two references to one object observe the same writes. *)

From Stdlib Require Import ZArith Lia QArith Qround.
From Stdlib Require Import PrimFloat SpecFloat FloatOps.
From stdpp Require Import base option list sorting gmap strings.

Open Scope Z_scope.

(* ================================================================== *)
(** ** Numbers that may be [Infinity] *)

(** Grid units are integers; [Infinity] appears as the default of
    [maxW], [maxH], [maxRows] and as the start value of a running
    minimum. *)
Inductive number : Type :=
  | Fin (z : Z)
  | Infinity.

Module Num.

(** [Math.min(a, b)]. *)
Definition min (a b : number) : number :=
  match a, b with
  | Fin u, Fin v => Fin (Z.min u v)
  | Fin u, Infinity => Fin u
  | Infinity, _ => b
  end.

(** [Math.min(z, b)] for a finite first argument: the result is finite. *)
Definition minZ (z : Z) (b : number) : Z :=
  match b with
  | Fin v => Z.min z v
  | Infinity => z
  end.

(** [a - z] for a finite [z]. *)
Definition sub (a : number) (z : Z) : number :=
  match a with
  | Fin u => Fin (u - z)
  | Infinity => Infinity
  end.

(** [lo <= hi] when [hi] may be infinite. *)
Definition le (z : Z) (b : number) : Prop :=
  match b with
  | Fin v => z <= v
  | Infinity => True
  end.

End Num.

(* ================================================================== *)
(** ** Layout model *)

Module Item.

(** A [LayoutItem].  Optional fields are [None] when the JavaScript
    property is [undefined]. *)
Record t : Type := mk {
  i : string;
  x : Z;
  y : Z;
  w : Z;
  h : Z;
  minW : option Z;
  maxW : option Z;
  minH : option Z;
  maxH : option Z;
  static : bool;
  isDraggable : option bool;
  isResizable : option bool;
  isBounded : option bool;
  persistentW : option Z;
  persistentH : option Z
}.

Definition setX (l : t) (v : Z) : t :=
  mk (i l) v (y l) (w l) (h l) (minW l) (maxW l) (minH l) (maxH l)
     (static l) (isDraggable l) (isResizable l) (isBounded l)
     (persistentW l) (persistentH l).

Definition setY (l : t) (v : Z) : t :=
  mk (i l) (x l) v (w l) (h l) (minW l) (maxW l) (minH l) (maxH l)
     (static l) (isDraggable l) (isResizable l) (isBounded l)
     (persistentW l) (persistentH l).

Definition setW (l : t) (v : Z) : t :=
  mk (i l) (x l) (y l) v (h l) (minW l) (maxW l) (minH l) (maxH l)
     (static l) (isDraggable l) (isResizable l) (isBounded l)
     (persistentW l) (persistentH l).

Definition setH (l : t) (v : Z) : t :=
  mk (i l) (x l) (y l) (w l) v (minW l) (maxW l) (minH l) (maxH l)
     (static l) (isDraggable l) (isResizable l) (isBounded l)
     (persistentW l) (persistentH l).

Definition setPersistentW (l : t) (v : Z) : t :=
  mk (i l) (x l) (y l) (w l) (h l) (minW l) (maxW l) (minH l) (maxH l)
     (static l) (isDraggable l) (isResizable l) (isBounded l)
     (Some v) (persistentH l).

Definition setPersistentH (l : t) (v : Z) : t :=
  mk (i l) (x l) (y l) (w l) (h l) (minW l) (maxW l) (minH l) (maxH l)
     (static l) (isDraggable l) (isResizable l) (isBounded l)
     (persistentW l) (Some v).

(** A plain item [{i, x, y, w, h}] with every optional field unset. *)
Definition plain (k : string) (x0 y0 w0 h0 : Z) : t :=
  mk k x0 y0 w0 h0 None None None None false None None None None None.

(** The same with [static: true]. *)
Definition fixed (k : string) (x0 y0 w0 h0 : Z) : t :=
  mk k x0 y0 w0 h0 None None None None true None None None None None.

End Item.

Abbreviation LayoutItem := Item.t.

(** A layout by value: the sequence of its items. *)
Abbreviation Layout := (list LayoutItem).

#[global] Instance LayoutItem_eq_dec : EqDecision LayoutItem.
Proof. solve_decision. Defined.

#[global] Instance LayoutItem_inhabited : Inhabited LayoutItem :=
  populate (Item.plain "" 0 0 0 0).

Inductive CompactType : Type :=
  | Vertical
  | Horizontal
  | NoCompact.

#[global] Instance CompactType_eq_dec : EqDecision CompactType.
Proof. solve_decision. Defined.

(* ================================================================== *)
(** ** Collision detector *)

(** Modelled from the spec: [collides] of [./utils] is missing from the
    sources.  Spec 4.1: true iff the rectangles [[x, x+w) * [y, y+h)] of
    [a] and [b] intersect; two items with identical key are not
    compared.  Two half-open intervals intersect iff the larger start is
    below the smaller end. *)
Definition collides (a b : LayoutItem) : bool :=
  negb (String.eqb (Item.i a) (Item.i b))
  && (Z.max (Item.x a) (Item.x b)
        <? Z.min (Item.x a + Item.w a) (Item.x b + Item.w b))
  && (Z.max (Item.y a) (Item.y b)
        <? Z.min (Item.y a + Item.h a) (Item.y b + Item.h b)).

(** Modelled from the spec: [getAllCollisions] of [./utils] is missing.
    Spec 4.1: all items of [layout] (excluding [item] itself by key)
    whose rectangle intersects [item]'s, in layout order. *)
Definition getAllCollisions (layout : Layout) (item : LayoutItem) : Layout :=
  List.filter (fun l => collides l item) layout.

(** Modelled from the spec: [getLayoutItem] of [./utils] is missing.
    Lookup of an item by key (spec 4.3, "looked up by key within
    layout"); [None] stands for [undefined]. *)
Definition getLayoutItem (layout : Layout) (id : string) : option LayoutItem :=
  List.find (fun l => String.eqb (Item.i l) id) layout.

(** Modelled from the spec: [cloneLayoutItem] and [cloneLayout] of
    [./utils] are missing.  A clone is a new object with the same
    fields. *)
Definition cloneLayoutItem (l : LayoutItem) : LayoutItem :=
  Item.mk (Item.i l) (Item.x l) (Item.y l) (Item.w l) (Item.h l)
          (Item.minW l) (Item.maxW l) (Item.minH l) (Item.maxH l)
          (Item.static l) (Item.isDraggable l) (Item.isResizable l)
          (Item.isBounded l) (Item.persistentW l) (Item.persistentH l).

Definition cloneLayout (layout : Layout) : Layout :=
  map cloneLayoutItem layout.

(** [lodash.isequal] on two layouts: structural equality over all item
    fields. *)
Definition isEqual (a b : Layout) : bool := bool_decide (a = b).

(* ================================================================== *)
(** ** Compactor *)

(** Modelled from the spec: the steps of [compact] (spec 4.2), which
    is missing from the sources together with the rest of [./utils]. *)
Module Compactor.

(** Position and extent of an item along the compaction axis. *)
Definition coord (t : CompactType) (l : LayoutItem) : Z :=
  match t with
  | Horizontal => Item.x l
  | _ => Item.y l
  end.

Definition size (t : CompactType) (l : LayoutItem) : Z :=
  match t with
  | Horizontal => Item.w l
  | _ => Item.h l
  end.

Definition setCoord (t : CompactType) (l : LayoutItem) (v : Z) : LayoutItem :=
  match t with
  | Horizontal => Item.setX l v
  | _ => Item.setY l v
  end.

(** Ascending order by [(y, x, i)] for vertical compaction and by
    [(x, y, i)] for horizontal compaction. *)
Definition leItem (t : CompactType) (a b : LayoutItem) : bool :=
  let '(a1, a2, b1, b2) :=
    match t with
    | Horizontal => (Item.x a, Item.y a, Item.x b, Item.y b)
    | _ => (Item.y a, Item.x a, Item.y b, Item.x b)
    end in
  (a1 <? b1)
  || ((a1 =? b1)
      && ((a2 <? b2)
          || ((a2 =? b2) && String.leb (Item.i a) (Item.i b)))).

Fixpoint insertItem (t : CompactType) (a : LayoutItem) (l : Layout) : Layout :=
  match l with
  | [] => [a]
  | b :: l' => if leItem t a b then a :: l else b :: insertItem t a l'
  end.

Definition sortLayoutItems (t : CompactType) (layout : Layout) : Layout :=
  foldr (insertItem t) [] layout.

Definition getStatics (layout : Layout) : Layout :=
  List.filter Item.static layout.

Definition collidesAny (placed : Layout) (l : LayoutItem) : bool :=
  existsb (collides l) placed.

(** The end of the occupied range along the axis ([bottom] for the
    vertical axis). *)
Definition extent (t : CompactType) (placed : Layout) : Z :=
  foldr (fun q acc => Z.max (coord t q + size t q) acc) 0 placed.

(** The first position from [v] upward that is free, looking at no
    more than [fuel] further positions. *)
Fixpoint firstFree (fuel : nat) (free : Z -> bool) (v : Z) : Z :=
  if free v then v
  else match fuel with
       | O => v
       | S f => firstFree f free (v + 1)
       end.

(** One item is moved as far as possible toward the origin along the
    axis such that it collides with no item already placed.  No
    placed item reaches beyond [extent], so the search ends there. *)
Definition compactItem (t : CompactType) (placed : Layout) (l : LayoutItem)
  : LayoutItem :=
  setCoord t l
    (firstFree (Z.to_nat (extent t placed))
               (fun v => negb (collidesAny placed (setCoord t l v))) 0).

(** The greedy single pass over the sorted items.  [placed] holds the
    static items and the items already compacted in this pass. *)
Fixpoint compactPass (t : CompactType) (placed sorted : Layout) : Layout :=
  match sorted with
  | [] => []
  | l :: rest =>
      if Item.static l then l :: compactPass t placed rest
      else
        let l' := compactItem t placed l in
        l' :: compactPass t (placed ++ [l']) rest
  end.

(** The output keeps the input item order: each input item is
    replaced by the compacted item of the same key. *)
Definition reorder (layout result : Layout) : Layout :=
  map (fun l => default l (getLayoutItem result (Item.i l))) layout.

(** Axis compaction, before the bound correction. *)
Definition compactAxis (t : CompactType) (layout : Layout) : Layout :=
  match t with
  | NoCompact => layout
  | _ =>
      reorder layout
        (compactPass t (getStatics layout) (sortLayoutItems t layout))
  end.

(** The bound correction: [x + w <= cols], reducing [x], never [w]. *)
Definition correctBounds (cols : Z) (l : LayoutItem) : LayoutItem :=
  if cols <? Item.x l + Item.w l then Item.setX l (cols - Item.w l) else l.

(** *** Properties of layouts, for the statements about [compact] *)

(** The order of the visit, as far as the compaction axis goes. *)
Definition notAfter (t : CompactType) (a b : LayoutItem) : Prop :=
  coord t a <= coord t b.

(** The items that compaction may move. *)
Definition movable (layout : Layout) : Layout :=
  List.filter (fun l => negb (Item.static l)) layout.

(** [p] is settled among the items [S]: it lies on the grid side of
    the origin, collides with none of them, and every position nearer
    to the origin is blocked by one of them. *)
Definition settled (t : CompactType) (S : Layout) (p : LayoutItem) : Prop :=
  0 <= coord t p
  /\ (forall q, q ∈ S -> collides p q = false)
  /\ (forall v, 0 <= v < coord t p ->
                exists q, q ∈ S /\ collides (setCoord t p v) q = true).

(** A layout is packed when each of its non-static items is settled
    among all the items. *)
Definition packed (t : CompactType) (S : Layout) : Prop :=
  forall p, p ∈ S -> Item.static p = false -> settled t S p.

(** Every item within the column bound. *)
Definition withinCols (cols : Z) (layout : Layout) : Prop :=
  Forall (fun l => Item.x l + Item.w l <= cols) layout.

End Compactor.

(** Modelled from the spec: [compact] of [./utils] is missing.  Spec
    4.2: items are visited in ascending order by [(y, x, i)] (vertical)
    or [(x, y, i)] (horizontal); each visited non-static item is moved
    as far as possible toward the origin along the compaction axis such
    that it does not collide with any item already placed in this pass
    (previously visited items and all static items); static items are
    copied unchanged; for [none] the order is kept and nothing is
    repositioned; afterwards every item is clamped so that
    [x + w <= cols]; the output preserves the input item order. *)
Definition compact (layout : Layout) (t : CompactType) (cols : Z) : Layout :=
  map (Compactor.correctBounds cols) (Compactor.compactAxis t layout).

(* ================================================================== *)
(** ** Placement engine *)

(** Modelled from the spec: the steps of [moveElement] (spec 4.3),
    which is missing from the sources together with the rest of
    [./utils]. *)
Module Placement.

(** Capping of the target column, in the order of [calcXY]:
    [Math.max(Math.min(x, cols - w), 0)]. *)
Definition clampX (cols w0 toX : Z) : Z := Z.max (Z.min toX (cols - w0)) 0.

Definition clampY (toY : Z) : Z := Z.max toY 0.

(** The layout with the item of [l]'s key replaced by [l]. *)
Definition replaceItem (layout : Layout) (l : LayoutItem) : Layout :=
  map (fun q => if String.eqb (Item.i q) (Item.i l) then l else q) layout.

(** [q] pushed along the axis by the minimum amount that clears
    [mover]: it starts where [mover] ends. *)
Definition pushPast (t : CompactType) (mover q : LayoutItem) : LayoutItem :=
  Compactor.setCoord t q (Compactor.coord t mover + Compactor.size t mover).

(** The displacement cascade: every non-static item that collides
    with [mover] and was not displaced before is pushed past it, and
    the displacement is applied in turn to what the pushed item now
    collides with.  [visited] are the keys displaced so far; each
    level of the recursion adds one, so [fuel] = number of items is
    enough. *)
Fixpoint cascade (fuel : nat) (t : CompactType) (mover : LayoutItem)
         (st : Layout * list string) : Layout * list string :=
  match fuel with
  | O => st
  | S f =>
      fold_left
        (fun st' q =>
           if Item.static q || bool_decide (Item.i q ∈ snd st') then st'
           else
             match getLayoutItem (fst st') (Item.i q) with
             | Some qc =>
                 if collides qc mover then
                   let q' := pushPast t mover qc in
                   cascade f t q'
                     (replaceItem (fst st') q', Item.i q :: snd st')
                 else st'
             | None => st'
             end)
        (getAllCollisions (fst st) mover) st
  end.

(** A moving item that collides with a static obstacle is blocked at
    the obstacle's edge along the axis. *)
Definition blockAtStatics (t : CompactType) (layout : Layout)
           (moved : LayoutItem) : LayoutItem :=
  fold_left
    (fun m s => if Item.static s && collides s m then pushPast t s m else m)
    layout moved.

(** With [isUserAction], a colliding non-static neighbour that fits on
    the origin side of the mover is put there (the mover swaps past
    it); the other neighbours are pushed by [cascade]. *)
Definition swapPast (t : CompactType) (mover : LayoutItem)
           (st : Layout * list string) : Layout * list string :=
  fold_left
    (fun st' q =>
       let q' := Compactor.setCoord t q
                   (Compactor.coord t mover - Compactor.size t q) in
       if negb (Item.static q)
          && (0 <=? Compactor.coord t q')
          && negb (Compactor.collidesAny (fst st') q')
       then (replaceItem (fst st') q', Item.i q :: snd st')
       else st')
    (getAllCollisions (fst st) mover) st.

End Placement.

(** Modelled from the spec: [moveElement] of [./utils] is missing.
    Spec 4.3: the item is looked up by key (absent: the layout is
    returned unchanged); the target is clamped so that [toX >= 0],
    [toX + w <= cols], [toY >= 0]; with [preventCollision] a colliding
    move is rejected and a free one moves the item, the rest of the
    layout untouched and not compacted; without it the item is moved
    unconditionally (blocked at static obstacles) and the items it
    collides with are displaced along the compaction axis (down for
    vertical and for none, right for horizontal), recursively, each key
    at most once. *)
Definition moveElement (layout : Layout) (item : LayoutItem) (toX toY : Z)
           (isUserAction preventCollision : bool) (t : CompactType) (cols : Z)
  : Layout :=
  match getLayoutItem layout (Item.i item) with
  | None => layout
  | Some l =>
      let moved :=
        Item.setY (Item.setX l (Placement.clampX cols (Item.w l) toX))
                  (Placement.clampY toY) in
      if preventCollision then
        match getAllCollisions layout moved with
        | [] => Placement.replaceItem layout moved
        | _ :: _ => layout
        end
      else
        let moved' := Placement.blockAtStatics t layout moved in
        let st0 := (Placement.replaceItem layout moved', [Item.i moved']) in
        let st1 := if isUserAction then Placement.swapPast t moved' st0 else st0 in
        fst (Placement.cascade (length layout) t moved' st1)
  end.

(* ================================================================== *)
(** ** GridItem.js: the props of a grid item, pixels as rationals *)

Module GridItem.

(** The props of one grid item that the position and drag code reads.
    Here pixel quantities are exact rationals: the statements made
    about this part are bounds and orderings that hold whatever a
    quotient rounds to; the rounding error of doubles and a zero
    divisor (where JavaScript yields [Infinity] or [NaN]) are outside
    it.  The resize path is modelled over doubles, in
    [GridItemResize] below.  [handlers] lists the handler props that
    are set. *)
Record Props : Type := mkProps {
  cols : Z;
  x : Z;
  y : Z;
  i : string;
  minW : Z;
  maxW : number;
  minH : Z;
  maxH : number;
  maxRows : number;
  containerWidth : Q;
  margin : Q * Q;
  containerPadding : Q * Q;
  rowHeight : Q;
  handlers : list string
}.

(** The [size] reported by the resize gesture, in pixels. *)
Record Size : Type := mkSize {
  width : Q;
  height : Q
}.

(** [Math.round]: the nearest integer, halves upward. *)
Definition round (q : Q) : Z := Qfloor (q + (1 # 2)).

Definition calcColWidth (p : Props) : Q :=
  ((containerWidth p - fst (margin p) * inject_Z (cols p - 1)
    - fst (containerPadding p) * 2) / inject_Z (cols p))%Q.

End GridItem.

(* ================================================================== *)
(** ** JavaScript numbers on the resize path *)

(** JavaScript numbers are IEEE 754 doubles.  Pixel quantities of the
    resize path are the kernel's binary64 floats, whose [+], [-], [*]
    and [/] round as JavaScript's do.  Grid units are integers. *)
Module JSNumber.

(** The double of an integer (the nearest one; exact below [2^53]). *)
Definition ofZ (z : Z) : float :=
  SF2Prim (binary_normalize prec emax z 0 false).

(** What [Math.round] returns: an integral number, an infinity or
    [NaN]. *)
Inductive rounded : Type :=
  | Integral (z : Z)
  | PosInfinity
  | NegInfinity
  | NaN.

(** [Math.round(v)]: the integer nearest to [v], a half going toward
    [+Infinity]; [NaN] and the infinities are returned as they are.
    The integer is computed exactly from the sign, mantissa and
    exponent of the double: [floor(v + 1/2)] over the rationals. *)
Definition round (v : float) : rounded :=
  match Prim2SF v with
  | S754_zero _ => Integral 0
  | S754_infinity s => if s then NegInfinity else PosInfinity
  | S754_nan => NaN
  | S754_finite s m e =>
      let n := if s then Z.neg m else Z.pos m in
      Integral (if 0 <=? e then n * 2 ^ e
                else (2 * n + 2 ^ (- e)) / (2 * 2 ^ (- e)))
  end.

(** [Math.min(v, b)] for a grid number [b]. *)
Definition min (v : rounded) (b : number) : rounded :=
  match v, b with
  | NaN, _ => NaN
  | NegInfinity, _ => NegInfinity
  | Integral z, Fin m => Integral (Z.min z m)
  | Integral z, Infinity => Integral z
  | PosInfinity, Fin m => Integral m
  | PosInfinity, Infinity => PosInfinity
  end.

(** [Math.max(v, lo)] for an integer [lo]. *)
Definition max (v : rounded) (lo : Z) : rounded :=
  match v with
  | NaN => NaN
  | NegInfinity => Integral lo
  | Integral z => Integral (Z.max z lo)
  | PosInfinity => PosInfinity
  end.

(** [Math.max(Math.min(v, hi), lo)]: the clamp of [v] to [[lo, hi]] as
    the sources write it. *)
Definition clamp (lo : Z) (hi : number) (v : rounded) : rounded :=
  max (min v hi) lo.

(** [v] is a number between [lo] and [hi]. *)
Definition within (lo : Z) (hi : number) (v : rounded) : Prop :=
  match v with
  | Integral z => lo <= z /\ Num.le z hi
  | PosInfinity => hi = Infinity
  | NegInfinity => False
  | NaN => False
  end.

End JSNumber.

(* ================================================================== *)
(** ** GridItem.js: pixel sizes to grid units *)

Module GridItemResize.

Import JSNumber.

(** The two versions of [GridItem.js] in the sources agree on
    [calcColWidth], on [calcWH] and on the clamping lines of
    [onResizeHandler]; the one definition below stands for both. *)

(** The props of one grid item that the resize path reads.  [handlers]
    lists the handler props that are set. *)
Record Props : Type := mkProps {
  cols : Z;
  x : Z;
  y : Z;
  i : string;
  minW : Z;
  maxW : number;
  minH : Z;
  maxH : number;
  maxRows : number;
  containerWidth : float;
  margin : float * float;
  containerPadding : float * float;
  rowHeight : float;
  handlers : list string
}.

(** The [size] reported by the resize gesture, in pixels. *)
Record Size : Type := mkSize {
  width : float;
  height : float
}.

(** The call [handler.call(this, i, w, h, {e, node, size})]. *)
Record ResizeCall : Type := mkCall {
  handlerName : string;
  key : string;
  gridW : rounded;
  gridH : rounded;
  size : Size
}.

Definition calcColWidth (p : Props) : float :=
  ((containerWidth p - fst (margin p) * ofZ (cols p - 1)
    - fst (containerPadding p) * 2) / ofZ (cols p))%float.

(** [calcWH]: the pixel size in grid units, capped to
    [0 <= w <= cols - x] and [0 <= h <= maxRows - y]. *)
Definition calcWH (p : Props) (s : Size) : rounded * rounded :=
  let colWidth := calcColWidth p in
  let w := round ((width s + fst (margin p))
                  / (colWidth + fst (margin p)))%float in
  let h := round ((height s + snd (margin p))
                  / (rowHeight p + snd (margin p)))%float in
  (* Capping *)
  (max (min w (Fin (cols p - x p))) 0,
   max (min h (Num.sub (maxRows p) (y p))) 0).

(** [onResizeHandler(e, {node, size}, handlerName)].  The result is
    the new [resizing] state and the call made to the handler, if
    any. *)
Definition onResizeHandler (p : Props) (resizing : option Size)
           (s : Size) (name : string) : option Size * option ResizeCall :=
  if negb (bool_decide (name ∈ handlers p)) then (resizing, None)
  else
    (* Get new XY *)
    let '(w0, h0) := calcWH p s in
    (* Cap w at numCols *)
    let w1 := min w0 (Fin (cols p - x p)) in
    (* Ensure w is at least 1 *)
    let w2 := max w1 1 in
    (* Min/max capping *)
    let w3 := max (min w2 (maxW p)) (minW p) in
    let h1 := max (min h0 (maxH p)) (minH p) in
    (if String.eqb name "onResizeStop" then None else Some s,
     Some (mkCall name (i p) w3 h1 s)).

End GridItemResize.

(* ================================================================== *)
(** ** The store of item objects *)

(** Layout items are JavaScript objects: [getLayoutItem] hands out a
    reference into the layout array, and the resize handler writes to
    it ([l.w = w]).  The store maps an address to the object's current
    fields; a layout array is the list of the addresses of its items.
    The arrays themselves are never written to by the handlers. *)
Module Store.

Abbreviation loc := nat.
Abbreviation Heap := (list LayoutItem).
Abbreviation LayoutRef := (list nat).

(** The current value of the object at [a]. *)
Definition get (hp : Heap) (a : loc) : LayoutItem := hp !!! a.

(** An assignment to fields of the object at [a]. *)
Definition set (hp : Heap) (a : loc) (v : LayoutItem) : Heap := <[a := v]> hp.

(** The layout array read by value. *)
Definition readLayout (hp : Heap) (L : LayoutRef) : Layout :=
  map (get hp) L.

(** New objects for the items of [vals], and the array of them. *)
Definition alloc (hp : Heap) (vals : Layout) : Heap * LayoutRef :=
  (hp ++ vals, seq (length hp) (length vals)).

(** Modelled from the spec: [getLayoutItem(layout, i)] on the store,
    the reference to the first item of key [id]. *)
Definition getLayoutItem (hp : Heap) (L : LayoutRef) (id : string)
  : option loc :=
  List.find (fun a => String.eqb (Item.i (get hp a)) id) L.

(** Modelled from the spec: [compact(layout, compactType, cols)] on
    the store, a new layout of new item objects (spec 3 and 9: every
    engine operation returns a new Layout value, never aliased). *)
Definition compact (hp : Heap) (L : LayoutRef) (t : CompactType) (cols : Z)
  : Heap * LayoutRef :=
  alloc hp (compact (readLayout hp L) t cols).

(** The assignments of the values [vals] to the objects of [L], item
    by item. *)
Definition writeLayout (hp : Heap) (L : LayoutRef) (vals : Layout) : Heap :=
  fold_left (fun h av => set h (fst av) (snd av)) (zip L vals) hp.

(** Modelled from the spec: [moveElement(layout, l, x, y,
    isUserAction, preventCollision, compactType, cols)] on the store.
    The handlers hand the object [l] to [onDrag] and [onDragStop] as
    the new item after this call, so the move is a write to the item
    objects of the array (spec 9 names this in-place mutation of the
    original design): the positions [moveElement] computes are
    assigned to the objects of [L], and the array returned holds those
    same objects. *)
Definition moveElement (hp : Heap) (L : LayoutRef) (a : loc) (toX toY : Z)
           (isUserAction preventCollision : bool) (t : CompactType) (cols : Z)
  : Heap * LayoutRef :=
  (writeLayout hp L (moveElement (readLayout hp L) (get hp a) toX toY
                                 isUserAction preventCollision t cols),
   L).

End Store.

(* ================================================================== *)
(** ** ReactGridLayout.js: the interaction controller *)

Module Placeholder.

(** The display-only placeholder object.  Drag builds it with
    [placeholder: true], resize with [static: true]. *)
Record t : Type := mk {
  w : Z;
  h : Z;
  x : Z;
  y : Z;
  placeholder : bool;
  static : bool;
  i : string
}.

End Placeholder.

Module RGL.

(** The props the handlers read. *)
Record Props : Type := mkProps {
  cols : Z;
  compactType : CompactType;
  verticalCompact : bool;
  preventCollision : bool;
  isDraggable : bool;
  isResizable : bool;
  isBounded : bool
}.

(** The component state ([useState] cells) together with the object
    store.  [oldDragItem] and [oldResizeItem] hold clones that nothing
    else refers to; they are kept by value. *)
Record State : Type := mkState {
  store : Store.Heap;
  activeDrag : option Placeholder.t;
  layoutState : Store.LayoutRef;
  oldDragItem : option LayoutItem;
  oldLayout : option Store.LayoutRef;
  oldResizeItem : option LayoutItem
}.

(** A callback invocation, with its arguments read at the time of the
    call: [(layout, oldItem, newItem, placeholder)]; the event and the
    DOM node are passed through untouched and left out. *)
Inductive Call : Type :=
  | onDragStart (layout : Layout) (oldItem newItem : option LayoutItem)
                (placeholder : option Placeholder.t)
  | onDrag (layout : Layout) (oldItem newItem : option LayoutItem)
           (placeholder : option Placeholder.t)
  | onDragStop (layout : Layout) (oldItem newItem : option LayoutItem)
               (placeholder : option Placeholder.t)
  | onResizeStart (layout : Layout) (oldItem newItem : option LayoutItem)
                  (placeholder : option Placeholder.t)
  | onResize (layout : Layout) (oldItem newItem : option LayoutItem)
             (placeholder : option Placeholder.t)
  | onResizeStop (layout : Layout) (oldItem newItem : option LayoutItem)
                 (placeholder : option Placeholder.t)
  | onLayoutChange (layout : Layout).

Definition isLayoutChange (c : Call) : bool :=
  match c with
  | onLayoutChange _ => true
  | _ => false
  end.

(** [verticalCompact === false ? null : compactType]. *)
Definition fixCompactType (p : Props) : CompactType :=
  if verticalCompact p then compactType p else NoCompact.

(** [handleLayoutMaybeChanged(newLayoutState, oldLayoutState)], run
    in store [hp]; [current] is the [layoutState] of the render. *)
Definition handleLayoutMaybeChanged (hp : Store.Heap)
           (current : Store.LayoutRef)
           (newLayoutState : Store.LayoutRef)
           (oldLayoutState : option Store.LayoutRef) : list Call :=
  let old := match oldLayoutState with
             | Some o => o
             | None => current
             end in
  if negb (isEqual (Store.readLayout hp old)
                   (Store.readLayout hp newLayoutState))
  then [onLayoutChange (Store.readLayout hp newLayoutState)]
  else [].

Definition handleDragStart (p : Props) (st : State) (i : string) (x y : Z)
  : State * list Call :=
  match Store.getLayoutItem (store st) (layoutState st) i with
  | None => (st, [])
  | Some a =>
      let l := Store.get (store st) a in
      let layout := Store.readLayout (store st) (layoutState st) in
      (mkState (store st) (activeDrag st) (layoutState st)
               (Some (cloneLayoutItem l)) (Some (layoutState st))
               (oldResizeItem st),
       [onDragStart layout (Some l) (Some l) None])
  end.

Definition handleDrag (p : Props) (st : State) (i : string) (x y : Z)
  : State * list Call :=
  match Store.getLayoutItem (store st) (layoutState st) i with
  | None => (st, [])
  | Some a =>
      let l := Store.get (store st) a in
      (* Create placeholder (display only) *)
      let placeholder :=
        Placeholder.mk (Item.w l) (Item.h l) (Item.x l) (Item.y l)
                       true false i in
      let '(hp1, modifiedLayout) :=
        Store.moveElement (store st) (layoutState st) a x y
                          true (preventCollision p)
                          (fixCompactType p) (cols p) in
      let calls :=
        [onDrag (Store.readLayout hp1 modifiedLayout) (oldDragItem st)
                (Some (Store.get hp1 a)) (Some placeholder)] in
      let '(hp2, compacted) :=
        Store.compact hp1 modifiedLayout (fixCompactType p) (cols p) in
      (mkState hp2 (Some placeholder) compacted
               (oldDragItem st) (oldLayout st) (oldResizeItem st),
       calls)
  end.

Definition handleDragStop (p : Props) (st : State) (i : string) (x y : Z)
  : State * list Call :=
  match Store.getLayoutItem (store st) (layoutState st) i with
  | None => (st, [])
  | Some a =>
      let '(hp1, modifiedLayout) :=
        Store.moveElement (store st) (layoutState st) a x y
                          true (preventCollision p)
                          (fixCompactType p) (cols p) in
      let calls :=
        [onDragStop (Store.readLayout hp1 modifiedLayout) (oldDragItem st)
                    (Some (Store.get hp1 a)) None] in
      (* Set state *)
      let '(hp2, newLayout) :=
        Store.compact hp1 modifiedLayout (fixCompactType p) (cols p) in
      (mkState hp2 None newLayout None None (oldResizeItem st),
       calls ++ handleLayoutMaybeChanged hp2 (layoutState st) newLayout
                                         (oldLayout st))
  end.

Definition handleResizeStart (p : Props) (st : State) (i : string) (w h : Z)
  : State * list Call :=
  match Store.getLayoutItem (store st) (layoutState st) i with
  | None => (st, [])
  | Some a =>
      let l := Store.get (store st) a in
      let layout := Store.readLayout (store st) (layoutState st) in
      (mkState (store st) (activeDrag st) (layoutState st)
               (oldDragItem st) (Some (layoutState st))
               (Some (cloneLayoutItem l)),
       [onResizeStart layout (Some l) (Some l) None])
  end.

(** The [forEach] over the collisions: the least [x] among those
    right of [l] and the least [y] among those below it. *)
Definition leastXY (l : LayoutItem) (collisions : Layout) : number * number :=
  fold_left
    (fun acc layoutItem =>
       let leastX :=
         if Item.x l <? Item.x layoutItem
         then Num.min (fst acc) (Fin (Item.x layoutItem)) else fst acc in
       let leastY :=
         if Item.y l <? Item.y layoutItem
         then Num.min (snd acc) (Fin (Item.y layoutItem)) else snd acc in
       (leastX, leastY))
    collisions (Infinity, Infinity).


(** The collisions of [l] resized to [w * h], as [handleResize]
    computes them. *)
Definition resizeCollisions (layout : Layout) (l : LayoutItem) (w h : Z)
  : Layout :=
  List.filter (fun layoutItem => negb (String.eqb (Item.i layoutItem) (Item.i l)))
              (getAllCollisions layout (Item.setH (Item.setW l w) h)).

(** The writes of [handleResize] to the object [l]. *)
Definition resizeItem (preventCollision : bool) (layout : Layout)
           (l : LayoutItem) (w h : Z) : LayoutItem :=
  let collisions :=
    if preventCollision then resizeCollisions layout l w h else [] in
  let hasCollisions := negb (Nat.eqb (length collisions) 0) in
  (* If we're colliding, we need adjust the placeholder. *)
  let l1 :=
    if hasCollisions then
      (* adjust w && h to maximum allowed space; [Fin] is the case
         [Number.isFinite] *)
      let '(leastX, leastY) := leastXY l collisions in
      let lw := match leastX with
                | Fin m => Item.setW l (m - Item.x l)
                | Infinity => l
                end in
      match leastY with
      | Fin m => Item.setH lw (m - Item.y lw)
      | Infinity => lw
      end
    else l in
  if negb hasCollisions then
    (* Set new width and height. *)
    Item.setPersistentH (Item.setPersistentW (Item.setH (Item.setW l1 w) h) w) h
  else l1.

Definition handleResize (p : Props) (st : State) (i : string) (w h : Z)
  : State * list Call :=
  match Store.getLayoutItem (store st) (layoutState st) i with
  | None => (st, [])
  | Some a =>
      let l := Store.get (store st) a in
      let layout := Store.readLayout (store st) (layoutState st) in
      (* the assignments to l.w, l.h, l.persistentW, l.persistentH *)
      let hp1 := Store.set (store st) a
                   (resizeItem (preventCollision p) layout l w h) in
      let l' := Store.get hp1 a in
      (* Create placeholder element (display only) *)
      let placeholder :=
        Placeholder.mk (Item.w l') (Item.h l') (Item.x l') (Item.y l')
                       false true i in
      let calls :=
        [onResize (Store.readLayout hp1 (layoutState st)) (oldResizeItem st)
                  (Some l') (Some placeholder)] in
      (* Re-compact the layout and set the drag placeholder. *)
      let '(hp2, compacted) :=
        Store.compact hp1 (layoutState st) (fixCompactType p) (cols p) in
      (mkState hp2 (Some placeholder) compacted
               (oldDragItem st) (oldLayout st) (oldResizeItem st),
       calls)
  end.

Definition handleResizeStop (p : Props) (st : State) (i : string) (w h : Z)
  : State * list Call :=
  let l := Store.getLayoutItem (store st) (layoutState st) i in
  let calls :=
    [onResizeStop (Store.readLayout (store st) (layoutState st))
                  (oldResizeItem st) (Store.get (store st) <$> l) None] in
  (* Set state *)
  let '(hp1, newLayout) :=
    Store.compact (store st) (layoutState st) (fixCompactType p) (cols p) in
  (mkState hp1 None newLayout (oldDragItem st) None None,
   calls ++ handleLayoutMaybeChanged hp1 (layoutState st) newLayout
                                     (oldLayout st)).

(** The flags [processGridItem] hands to a grid item.
    [l.isDraggable || l.isDraggable == null] is true for [true] and
    for an unset flag. *)
Definition setOrNull (flag : option bool) : bool :=
  match flag with
  | Some b => b
  | None => true
  end.

Definition draggable (p : Props) (l : LayoutItem) : bool :=
  negb (Item.static l) && isDraggable p && setOrNull (Item.isDraggable l).

Definition resizable (p : Props) (l : LayoutItem) : bool :=
  negb (Item.static l) && isResizable p && setOrNull (Item.isResizable l).

Definition bounded (p : Props) (l : LayoutItem) : bool :=
  draggable p l && isBounded p && setOrNull (Item.isBounded l).

(** The gesture events a grid item delivers to the controller. *)
Inductive Event : Type :=
  | DragStart (i : string) (x y : Z)
  | Drag (i : string) (x y : Z)
  | DragStop (i : string) (x y : Z)
  | ResizeStart (i : string) (w h : Z)
  | Resize (i : string) (w h : Z)
  | ResizeStop (i : string) (w h : Z).

Definition handle (p : Props) (st : State) (ev : Event) : State * list Call :=
  match ev with
  | DragStart i x y => handleDragStart p st i x y
  | Drag i x y => handleDrag p st i x y
  | DragStop i x y => handleDragStop p st i x y
  | ResizeStart i w h => handleResizeStart p st i w h
  | Resize i w h => handleResize p st i w h
  | ResizeStop i w h => handleResizeStop p st i w h
  end.

(** A sequence of events, each handled in the state the previous one
    left; the calls are collected in order. *)
Fixpoint run (p : Props) (st : State) (evs : list Event) : State * list Call :=
  match evs with
  | [] => (st, [])
  | ev :: rest =>
      let '(st1, calls1) := handle p st ev in
      let '(st2, calls2) := run p st1 rest in
      (st2, calls1 ++ calls2)
  end.

(** The state of a mounted grid showing [layout], no session active. *)
Definition idle (layout : Layout) : State :=
  mkState layout None (seq 0 (length layout)) None None None.

End RGL.

(* ================================================================== *)
(** ** Responsive resolver *)

Module Breakpoints.

(** Descending order by pixel threshold. *)
Fixpoint insertDesc (a : string * Z) (l : list (string * Z))
  : list (string * Z) :=
  match l with
  | [] => [a]
  | b :: l' => if snd b <=? snd a then a :: l else b :: insertDesc a l'
  end.

Definition sortBreakpoints (breakpoints : gmap string Z)
  : list (string * Z) :=
  foldr insertDesc [] (map_to_list breakpoints).

(** Descending by threshold: every later entry is not above an earlier
    one. *)
Definition descending (l : list (string * Z)) : Prop :=
  StronglySorted (fun a b => snd b <= snd a) l.

End Breakpoints.

(** Modelled from the spec: [getBreakpointFromWidth] of
    [./responsiveUtils] is missing.  Spec 4.5: breakpoints are sorted
    descending by pixel threshold; the result is the name of the largest
    threshold that is [<= width]; if [width] is smaller than every
    threshold, the breakpoint with the smallest threshold.  [None]
    stands for [undefined] (no breakpoint configured). *)
Definition getBreakpointFromWidth (breakpoints : gmap string Z) (width : Z)
  : option string :=
  let sorted := Breakpoints.sortBreakpoints breakpoints in
  match List.find (fun b => snd b <=? width) sorted with
  | Some b => Some (fst b)
  | None => fst <$> last sorted
  end.

(** Modelled from the spec: [getColsFromBreakpoint] of
    [./responsiveUtils] is missing.  Spec 4.5: direct lookup; a
    breakpoint name absent from the map is a configuration error
    ([None] stands for the exception). *)
Definition getColsFromBreakpoint (breakpoint : string) (cols : gmap string Z)
  : option Z :=
  cols !! breakpoint.

(* ================================================================== *)
(** ** ResponsiveReactGridLayout.js *)

Module Responsive.

(** The [layouts] objects (breakpoint name to layout) live in a store
    of their own: the caller owns the object behind [props.layouts],
    and [modifiedLayouts[k] = v] is a write to an object.  The layouts
    inside are not written to by this component, so they are kept by
    value. *)
Abbreviation ref := nat.
Abbreviation Objects := (list (gmap string Layout)).

(** [{ ...o }]: a new object with the own properties of [o]. *)
Definition spread (objs : Objects) (o : ref) : Objects * ref :=
  (objs ++ [objs !!! o], length objs).

(** [o[k] = v]. *)
Definition assign (objs : Objects) (o : ref) (k : string) (v : Layout)
  : Objects :=
  <[o := <[k := v]> (objs !!! o)]> objs.

(** The property names every plain object inherits from
    [Object.prototype]. *)
Definition inherited : list string :=
  ["constructor"; "hasOwnProperty"; "isPrototypeOf"; "propertyIsEnumerable";
   "toLocaleString"; "toString"; "valueOf"; "__proto__";
   "__defineGetter__"; "__defineSetter__"; "__lookupGetter__";
   "__lookupSetter__"].

(** [k in m] for a plain object with the own properties [m]: the
    operator finds own and inherited properties. *)
Definition inObject {A : Type} (k : string) (m : gmap string A) : bool :=
  bool_decide (is_Some (m !! k)) || bool_decide (k ∈ inherited).

(** [k in o]. *)
Definition hasKey (objs : Objects) (k : string) (o : ref) : bool :=
  inObject k (objs !!! o).

(** A configuration object that is only read: its identity (for
    [!==]) and its properties. *)
Record Config : Type := mkConfig {
  ident : nat;
  props : gmap string Z
}.

Definition sameObject (a b : Config) : bool := Nat.eqb (ident a) (ident b).

(** The set of layouts that [onWidthChange] hands to
    [findOrGenerateResponsiveLayout]: the caller's, with a clone of
    the state layout under the outgoing breakpoint when
    [lastBreakpoint in layouts] is false. *)
Definition preserved (caller : gmap string Layout) (lastBreakpoint : string)
           (stateLayout : Layout) : gmap string Layout :=
  if inObject lastBreakpoint caller then caller
  else <[lastBreakpoint := cloneLayout stateLayout]> caller.

Section Wrapper.

(** The children of the grid, opaque here. *)
Context {Children : Type}.

(** [findOrGenerateResponsiveLayout] of [./responsiveUtils] and
    [synchronizeLayoutWithChildren] of [./utils] are missing from
    the sources.  They read the set of layouts and return a new
    layout (spec 4.5: the derivation is never persisted by the
    resolver itself; spec 4.4), which makes them functions of the
    values they are given. *)
Variable findOrGenerateResponsiveLayout :
  gmap string Layout -> gmap string Z -> string -> string -> Z ->
  CompactType -> Layout.
Variable synchronizeLayoutWithChildren :
  Layout -> Children -> Z -> CompactType -> Layout.

Record Props : Type := mkProps {
  breakpoint : option string;
  breakpoints : Config;
  cols : Config;
  layouts : ref;
  width : Z;
  compactType : CompactType;
  children : Children
}.

Record State : Type := mkState {
  layout : Layout;
  stBreakpoint : string;
  stCols : Z
}.

(** The callbacks [this.props.onBreakpointChange],
    [this.props.onLayoutChange] and [this.props.onWidthChange], with
    the arguments of the call; the mapping argument of
    [onLayoutChange] is the object reference. *)
Inductive Call : Type :=
  | props_onBreakpointChange (newBreakpoint : string) (newCols : Z)
  | props_onLayoutChange (layout : Layout) (allLayouts : ref)
  | props_onWidthChange (width : Z) (newCols : Z).

(** The wrapped [onLayoutChange]: the child's layout is reported
    together with [{ ...layouts, [breakpoint]: layout }]. *)
Definition onLayoutChange (p : Props) (st : State) (objs : Objects)
           (newLayout : Layout) : Objects * list Call :=
  let '(objs1, o) := spread objs (layouts p) in
  let objs2 := assign objs1 o (stBreakpoint st) newLayout in
  (objs2, [props_onLayoutChange newLayout o]).

(** [nextProps.breakpoint || getBreakpointFromWidth(...)]: an empty
    string is falsy. *)
Definition resolveBreakpoint (nextProps : Props) : option string :=
  match breakpoint nextProps with
  | Some b => if String.eqb b "" then
                getBreakpointFromWidth (props (breakpoints nextProps))
                                       (width nextProps)
              else Some b
  | None => getBreakpointFromWidth (props (breakpoints nextProps))
                                   (width nextProps)
  end.

(** The layout [onWidthChange] derives for the new breakpoint: found
    or generated from the preserved set, then synchronized with the
    children. *)
Definition derived (nextProps : Props) (st : State) (objs : Objects)
           (newBreakpoint : string) (newCols : Z) : Layout :=
  synchronizeLayoutWithChildren
    (findOrGenerateResponsiveLayout
       (preserved (objs !!! layouts nextProps) (stBreakpoint st) (layout st))
       (props (breakpoints nextProps)) newBreakpoint
       (stBreakpoint st) newCols (compactType nextProps))
    (children nextProps) newCols (compactType nextProps).

(** [onWidthChange(nextProps)], called on the component whose
    current props are [thisProps].  [None] is an exception thrown
    by [getColsFromBreakpoint], before anything was changed. *)
Definition onWidthChange (thisProps nextProps : Props) (st : State)
           (objs : Objects) : option (Objects * State * list Call) :=
  let lastBreakpoint := stBreakpoint st in
  let stateLayout := layout st in
  match resolveBreakpoint nextProps with
  | None => None
  | Some newBreakpoint =>
      match getColsFromBreakpoint newBreakpoint (props (cols nextProps)) with
      | None => None
      | Some newCols =>
          let widthCall := [props_onWidthChange (width nextProps) newCols] in
          (* Breakpoint change *)
          if negb (String.eqb lastBreakpoint newBreakpoint)
             || negb (sameObject (breakpoints thisProps) (breakpoints nextProps))
             || negb (sameObject (cols thisProps) (cols nextProps))
          then
            (* otherwise original `layouts` prop will be mutated *)
            let '(objs1, modifiedLayouts) := spread objs (layouts nextProps) in
            (* Preserve the current layout if the current breakpoint
               is not present in the next layouts. *)
            let objs2 :=
              if negb (hasKey objs1 lastBreakpoint (layouts nextProps))
              then assign objs1 modifiedLayouts lastBreakpoint
                          (cloneLayout stateLayout)
              else objs1 in
            (* Find or generate a new layout. *)
            let layout1 :=
              findOrGenerateResponsiveLayout
                (objs2 !!! modifiedLayouts) (props (breakpoints nextProps))
                newBreakpoint lastBreakpoint newCols
                (compactType nextProps) in
            (* This adds missing items. *)
            let layout2 :=
              synchronizeLayoutWithChildren layout1 (children nextProps)
                newCols (compactType nextProps) in
            (* Store the new layout. *)
            let objs3 := assign objs2 modifiedLayouts newBreakpoint layout2 in
            Some (objs3, mkState layout2 newBreakpoint newCols,
                  [props_onBreakpointChange newBreakpoint newCols;
                   props_onLayoutChange layout2 modifiedLayouts] ++ widthCall)
          else Some (objs, st, widthCall)
      end
  end.

End Wrapper.

End Responsive.

From Stdlib Require Import Lqa.

(* ================================================================== *)
(** ** GridItem.js: positions, drag events and resize constraints *)

(** An order on numbers that may be [Infinity]. *)
Module NumOrd.

Definition le (a b : number) : Prop :=
  match a, b with
  | _, Infinity => True
  | Infinity, Fin _ => False
  | Fin u, Fin v => u <= v
  end.

End NumOrd.

(** What a function does when it is called: it returns a value or
    throws an [Error] with a message. *)
Inductive outcome (A : Type) : Type :=
  | Returned (a : A)
  | Thrown (msg : string).

Arguments Returned {A} a.
Arguments Thrown {A} msg.

Module GridItemDrag.

(** The props of a grid item that positioning and dragging read on top
    of those of the resize path. *)
Record Props : Type := mkProps {
  base : GridItem.Props;
  w : Z;
  h : Z;
  isBounded : bool
}.

(** [{left, top, width, height}] in pixels, as [calcPosition] returns
    it: rounded, and infinite where the grid size is. *)
Record Position : Type := mkPosition {
  left : Z;
  top : Z;
  width : number;
  height : number
}.

(** The [dragging] state, [{top, left}] in pixels. *)
Record Point : Type := mkPoint {
  ptop : Q;
  pleft : Q
}.

(** What the drag handler reads from the DOM node: its offset parent,
    if any, with bounding rectangle, scroll offsets and client height,
    and the node's own bounding rectangle. *)
Record OffsetParent : Type := mkOffsetParent {
  parentRect : Point;
  scrollLeft : Q;
  scrollTop : Q;
  clientHeight : Q
}.

Record Node : Type := mkNode {
  offsetParent : option OffsetParent;
  clientRect : Point
}.

(** The call [handler.call(this, props.i, x, y, {e, node, newPosition})]. *)
Record DragCall : Type := mkCall {
  handlerName : string;
  key : string;
  gridX : Z;
  gridY : Z;
  newPosition : Point
}.

(** [a > b] on pixel values. *)
Definition gt (a b : Q) : bool := negb (Qle_bool a b).

(** [calcWidth(w, colWidth)]. *)
Definition calcWidth (p : Props) (w0 : Z) (colWidth : Q) : Z :=
  GridItem.round (colWidth * inject_Z w0
                  + inject_Z (Z.max 0 (w0 - 1))
                    * fst (GridItem.margin (base p)))%Q.

(** [calcHeight(h)]. *)
Definition calcHeight (p : Props) (h0 : Z) : Z :=
  GridItem.round (GridItem.rowHeight (base p) * inject_Z h0
                  + inject_Z (Z.max 0 (h0 - 1))
                    * snd (GridItem.margin (base p)))%Q.

(** [calcPosition(x, y, w, h, state)]; [dragging] and [resizing] are
    the two fields of [state], both unset when no state is passed.
    Both versions of the file compute the same four fields. *)
Definition calcPosition (p : Props) (x0 y0 : Z) (w0 h0 : number)
           (dragging : option Point) (resizing : option GridItem.Size)
  : Position :=
  let colWidth := GridItem.calcColWidth (base p) in
  let '(width0, height0) :=
    match resizing with
    (* If resizing, use the exact width and height as returned from
       resizing callbacks. *)
    | Some r =>
        (Fin (GridItem.round (GridItem.width r)),
         Fin (GridItem.round (GridItem.height r)))
    (* Otherwise, calculate from grid units. *)
    | None =>
        (match w0 with
         | Infinity => Infinity
         | Fin wz => Fin (calcWidth p wz colWidth)
         end,
         match h0 with
         | Infinity => Infinity
         | Fin hz => Fin (calcHeight p hz)
         end)
    end in
  let '(top0, left0) :=
    match dragging with
    | Some d => (GridItem.round (ptop d), GridItem.round (pleft d))
    | None =>
        (GridItem.round
           ((GridItem.rowHeight (base p) + snd (GridItem.margin (base p)))
            * inject_Z y0 + snd (GridItem.containerPadding (base p)))%Q,
         GridItem.round
           ((colWidth + fst (GridItem.margin (base p)))
            * inject_Z x0 + fst (GridItem.containerPadding (base p)))%Q)
    end in
  mkPosition left0 top0 width0 height0.

(** [calcXY(top, left)] of the newer version of the file, which
    measures from the container padding. *)
Definition calcXY (p : Props) (top0 left0 : Q) : Z * Z :=
  let colWidth := GridItem.calcColWidth (base p) in
  let x0 :=
    GridItem.round ((left0 - fst (GridItem.containerPadding (base p)))
                    / (colWidth + fst (GridItem.margin (base p))))%Q in
  let y0 :=
    GridItem.round ((top0 - snd (GridItem.containerPadding (base p)))
                    / (GridItem.rowHeight (base p)
                       + snd (GridItem.margin (base p))))%Q in
  (* Capping *)
  (Z.max (Z.min x0 (GridItem.cols (base p) - w p)) 0,
   Z.max (Num.minZ y0 (Num.sub (GridItem.maxRows (base p)) (h p))) 0).

(** The position of a bounded drag: kept above the bottom boundary and
    left of the right boundary, then kept non-negative. *)
Definition boundPosition (p : Props) (op : OffsetParent) (top0 left0 : Q)
  : Q * Q :=
  let bottomBoundary := (clientHeight op - inject_Z (calcHeight p (h p)))%Q in
  let top1 := if gt top0 bottomBoundary then bottomBoundary else top0 in
  let top2 := if gt 0 top1 then 0%Q else top1 in
  let rightBoundary :=
    (GridItem.containerWidth (base p)
     - inject_Z (calcWidth p (w p) (GridItem.calcColWidth (base p))))%Q in
  let left1 := if gt left0 rightBoundary then rightBoundary else left0 in
  let left2 := if gt 0 left1 then 0%Q else left1 in
  (top2, left2).

(** [onDragHandler(e, {node, deltaX, deltaY}, handlerName)] of the
    newer version of the file.  The result is the new [dragging] state
    and the call made to the handler, if any. *)
Definition onDragHandler (p : Props) (dragging : option Point) (node : Node)
           (deltaX deltaY : Q) (name : string)
  : outcome (option Point * option DragCall) :=
  if negb (bool_decide (name ∈ GridItem.handlers (base p)))
  then Returned (dragging, None)
  else
    let call (pos : Point) : DragCall :=
      let '(x0, y0) := calcXY p (ptop pos) (pleft pos) in
      mkCall name (GridItem.i (base p)) x0 y0 pos in
    if String.eqb name "onDragStart" then
      match offsetParent node with
      | None => Returned (dragging, None)
      | Some op =>
          let pos :=
            mkPoint
              (ptop (clientRect node) - ptop (parentRect op) + scrollTop op)%Q
              (pleft (clientRect node) - pleft (parentRect op) + scrollLeft op)%Q in
          Returned (Some pos, Some (call pos))
      end
    else if String.eqb name "onDrag" then
      match dragging with
      | None => Thrown "onDrag called before onDragStart."
      | Some d =>
          let top0 := (ptop d + deltaY)%Q in
          let left0 := (pleft d + deltaX)%Q in
          let '(top1, left1) :=
            match isBounded p, offsetParent node with
            | true, Some op => boundPosition p op top0 left0
            | _, _ => (top0, left0)
            end in
          let pos := mkPoint top1 left1 in
          Returned (Some pos, Some (call pos))
      end
    else if String.eqb name "onDragStop" then
      match dragging with
      | None => Thrown "onDragEnd called before onDragStart."
      | Some d => Returned (None, Some (call d))
      end
    else
      Thrown ("onDragHandler called with unrecognized handlerName: " ++ name).

(** The constraints [Resizable] hands to the resize widget:
    [(minConstraints, maxConstraints)], each [[width, height]]. *)
Definition constraints (p : Props) : (number * number) * (number * number) :=
  (* This is the max possible width *)
  let maxWidth :=
    width (calcPosition p 0 0
             (Fin (GridItem.cols (base p) - GridItem.x (base p))) (Fin 0)
             None None) in
  (* Calculate min/max constraints using our min & maxes *)
  let mins := calcPosition p 0 0 (Fin (GridItem.minW (base p)))
                           (Fin (GridItem.minH (base p))) None None in
  let maxes := calcPosition p 0 0 (GridItem.maxW (base p))
                            (GridItem.maxH (base p)) None None in
  ((width mins, height mins),
   (Num.min (width maxes) maxWidth, Num.min (height maxes) Infinity)).

End GridItemDrag.

(* ================================================================== *)
(** ** ReactGridLayout.js: what a resize leaves alone *)

(** [l'] is [l] but for the four fields [handleResize] assigns:
    [w], [h], [persistentW] and [persistentH]. *)
Definition sameButSize (l l' : LayoutItem) : Prop :=
  Item.i l' = Item.i l /\ Item.x l' = Item.x l /\ Item.y l' = Item.y l
  /\ Item.minW l' = Item.minW l /\ Item.maxW l' = Item.maxW l
  /\ Item.minH l' = Item.minH l /\ Item.maxH l' = Item.maxH l
  /\ Item.static l' = Item.static l
  /\ Item.isDraggable l' = Item.isDraggable l
  /\ Item.isResizable l' = Item.isResizable l
  /\ Item.isBounded l' = Item.isBounded l.

(* ================================================================== *)
(** ** ResponsiveReactGridLayout.js: the life cycle *)

Module ResponsiveLifecycle.

Import Responsive.

(** The state of the component with its optional [layouts] cell, which
    holds the reference last adopted from the props. *)
Record FullState : Type := mkFull {
  core : State;
  stLayouts : option ref
}.

(** [isEqual(nextProps.layouts, prevState.layouts)]: deep equality of
    the two objects as they read now; nothing equals [undefined]. *)
Definition layoutsEqual (objs : Objects) (a : ref) (b : option ref) : bool :=
  match b with
  | Some b' => bool_decide (objs !!! a = objs !!! b')
  | None => false
  end.

(** The state agrees with the props on the number of columns of its
    breakpoint. *)
Definition consistent (colsMap : gmap string Z) (st : State) : Prop :=
  getColsFromBreakpoint (stBreakpoint st) colsMap = Some (stCols st).

(** The [layouts] validator of [propTypes].  [layoutsProp] is [None]
    when the prop is not a plain object; a key is looked for in
    [breakpoints] by [in], which finds inherited names as well;
    [validateLayout] of [./utils]
    is missing from the sources and is a parameter, an error message
    standing for the exception it throws.  The result is the message of
    the first exception (the first one without the type name that the
    source appends), [None] when the validator returns. *)
Definition validateLayouts (validateLayout : Layout -> string -> option string)
           (layoutsProp : option (gmap string Layout))
           (breakpoints : gmap string Z) : option string :=
  match layoutsProp with
  | None => Some "Layout property must be an object. Received: "
  | Some ls =>
      foldr
        (fun kv rest =>
           if negb (inObject (fst kv) breakpoints) then
             Some "Each key in layouts must align with a key in breakpoints."
           else
             match validateLayout (snd kv)
                                  (String.append "layouts." (fst kv)) with
             | Some msg => Some msg
             | None => rest
             end)
        None (map_to_list ls)
  end.

Section Lifecycle.

Context {Children : Type}.

Variable findOrGenerateResponsiveLayout :
  gmap string Layout -> gmap string Z -> string -> string -> Z ->
  CompactType -> Layout.
Variable synchronizeLayoutWithChildren :
  Layout -> Children -> Z -> CompactType -> Layout.

(** [generateInitialState()].  [verticalCompact] is the deprecated prop
    of that name, read here only: [false] when it is set to [false].
    [None] is the exception of [getColsFromBreakpoint]. *)
Definition generateInitialState (p : @Props Children) (verticalCompact : bool)
           (objs : Objects) : option State :=
  match getBreakpointFromWidth (props (breakpoints p)) (width p) with
  | None => None
  | Some breakpoint =>
      match getColsFromBreakpoint breakpoint (props (cols p)) with
      | None => None
      | Some colNo =>
          (* verticalCompact compatibility, now deprecated *)
          let newCompactType :=
            if verticalCompact then compactType p else NoCompact in
          let initialLayout :=
            findOrGenerateResponsiveLayout
              (objs !!! layouts p) (props (breakpoints p))
              breakpoint breakpoint colNo newCompactType in
          Some (mkState initialLayout breakpoint colNo)
      end
  end.

(** [getDerivedStateFromProps(nextProps, prevState)]: the new state, or
    [None] for [null] (no change). *)
Definition getDerivedStateFromProps (nextProps : @Props Children)
           (objs : Objects) (prevState : FullState) : option FullState :=
  if negb (layoutsEqual objs (layouts nextProps) (stLayouts prevState)) then
    (* Allow parent to set layouts directly. *)
    let newLayout :=
      findOrGenerateResponsiveLayout
        (objs !!! layouts nextProps) (props (breakpoints nextProps))
        (stBreakpoint (core prevState)) (stBreakpoint (core prevState))
        (stCols (core prevState)) (compactType nextProps) in
    Some (mkFull (mkState newLayout (stBreakpoint (core prevState))
                          (stCols (core prevState)))
                 (Some (layouts nextProps)))
  else None.

(** [componentDidUpdate(prevProps)]: [onWidthChange(this.props)] when
    the width, the breakpoint, the breakpoints or the columns changed.
    [breakpoints] and [cols] are compared by [isEqual], deeply. *)
Definition componentDidUpdate (thisProps prevProps : @Props Children)
           (st : State) (objs : Objects)
  : option (Objects * State * list Call) :=
  if negb (width thisProps =? width prevProps)
     || negb (bool_decide (breakpoint thisProps = breakpoint prevProps))
     || negb (bool_decide (props (breakpoints thisProps)
                           = props (breakpoints prevProps)))
     || negb (bool_decide (props (cols thisProps) = props (cols prevProps)))
  then
    Responsive.onWidthChange findOrGenerateResponsiveLayout
                             synchronizeLayoutWithChildren
                             thisProps thisProps st objs
  else Some (objs, st, []).

End Lifecycle.

End ResponsiveLifecycle.

(* ================================================================== *)
(** ** lib/propTypes.js: the validators of the size bounds *)

Module PropTypes.

(** The props object: a property is a number, possibly [Infinity], or
    it is absent ([undefined]).  Values of other types are outside the
    model. *)
Abbreviation Props := (gmap string number).

(** [a > b] on numbers. *)
Definition gtNum (a b : number) : bool :=
  match a, b with
  | Fin u, Fin v => v <? u
  | Infinity, Fin _ => true
  | _, Infinity => false
  end.

(** [a > b] and [a < b] where [b] is a property that may be
    [undefined]: a comparison with [undefined] is false. *)
Definition gt (a : number) (b : option number) : bool :=
  match b with
  | Some b' => gtNum a b'
  | None => false
  end.

Definition lt (a : number) (b : option number) : bool :=
  match b with
  | Some b' => gtNum b' a
  | None => false
  end.

(** Each validator returns an [Error], here its message, or nothing. *)
Definition minW (props : Props) (propName : string) : option string :=
  match props !! propName with
  | None => Some "minWidth not Number"
  | Some value =>
      if gt value (props !! "w") || gt value (props !! "maxW")
      then Some "minWidth larger than item width/maxWidth"
      else None
  end.

Definition maxW (props : Props) (propName : string) : option string :=
  match props !! propName with
  | None => Some "maxWidth not Number"
  | Some value =>
      if lt value (props !! "w") || lt value (props !! "minW")
      then Some "maxWidth smaller than item width/minWidth"
      else None
  end.

Definition minH (props : Props) (propName : string) : option string :=
  match props !! propName with
  | None => Some "minHeight not Number"
  | Some value =>
      if gt value (props !! "h") || gt value (props !! "maxH")
      then Some "minHeight larger than item height/maxHeight"
      else None
  end.

Definition maxH (props : Props) (propName : string) : option string :=
  match props !! propName with
  | None => Some "maxHeight not Number"
  | Some value =>
      if lt value (props !! "h") || lt value (props !! "minH")
      then Some "maxHeight smaller than item height/minHeight"
      else None
  end.

End PropTypes.

(* ================================================================== *)
(** ** ReactGridLayout.js: the moves of a session *)

(** The move events of a drag or resize session. *)
Definition isMove (ev : RGL.Event) : bool :=
  match ev with
  | RGL.Drag _ _ _ | RGL.Resize _ _ _ => true
  | _ => false
  end.

(** A call of [onDrag] or [onResize] carrying the given old items. *)
Definition moveCallWith (oldDrag oldResize : option LayoutItem)
           (c : RGL.Call) : Prop :=
  match c with
  | RGL.onDrag _ oldItem _ (Some _) => oldItem = oldDrag
  | RGL.onResize _ oldItem _ (Some _) => oldItem = oldResize
  | _ => False
  end.
(* ================================================================== *)
(** ** Concrete configurations used by the examples *)

(** A container with the default flags and bounded dragging. *)
Definition flags_props : RGL.Props :=
  RGL.mkProps 12 Vertical true false true true true.

(** A grid item at the first column of a 3-column grid, 800 pixels
    wide with margins and padding of 10 pixels, and rows of 150
    pixels; a resize gesture asking for 385 by 310 pixels.  The width
    is one column and a half in exact arithmetic, and just below that
    in doubles: [(385 + 10) / (760 / 3 + 10)] is
    [1.4999999999999998]. *)
Definition resize_props : GridItemResize.Props :=
  GridItemResize.mkProps 3 0 0 "a" 1 Infinity 1 Infinity Infinity
                         800%float (10%float, 10%float) (10%float, 10%float)
                         150%float
                         ["onResizeStart"; "onResize"; "onResizeStop"].

Definition resize_size : GridItemResize.Size :=
  GridItemResize.mkSize 385%float 310%float.

(** A grid item at column 2 of a 12-column grid, 1200 pixels wide, with
    a width bound of 4 to 8 columns and a height bound of 1 to 3 rows,
    and a resize gesture asking for 1190 by 50 pixels. *)
Definition bounded_resize_props : GridItemResize.Props :=
  GridItemResize.mkProps 12 2 0 "a" 4 (Fin 8) 1 (Fin 3) Infinity
                         1200%float (10%float, 10%float) (10%float, 10%float)
                         150%float
                         ["onResizeStart"; "onResize"; "onResizeStop"].

Definition bounded_resize_size : GridItemResize.Size :=
  GridItemResize.mkSize 1190%float 50%float.

(** Scenario B of the spec: the breakpoints [{lg: 1200, md: 996, xs: 480}]. *)
Definition scenario_B : gmap string Z :=
  {[ "lg" := 1200; "md" := 996; "xs" := 480 ]}.

(** A resolver and a synchronizer for the examples of the responsive
    wrapper, which holds for every such pair of functions: the stored
    layout of the new breakpoint, else that of the last one, compacted;
    and a grid without children to add. *)
Definition sample_resolver (layouts : gmap string Layout)
           (breakpoints : gmap string Z) (newBreakpoint lastBreakpoint : string)
           (newCols : Z) (t : CompactType) : Layout :=
  compact (default (default [] (layouts !! lastBreakpoint))
                   (layouts !! newBreakpoint)) t newCols.

Definition sample_synchronizer (layout : Layout) (children : unit)
           (cols : Z) (t : CompactType) : Layout := layout.

(** The default breakpoints and columns, a caller that stores a layout
    for [lg] only, and a grid that was showing [md] when the width
    became 1300. *)
Definition default_breakpoints : Responsive.Config :=
  Responsive.mkConfig 0
    {[ "lg" := 1200; "md" := 996; "sm" := 768; "xs" := 480; "xxs" := 0 ]}.

Definition default_cols : Responsive.Config :=
  Responsive.mkConfig 1
    {[ "lg" := 12; "md" := 10; "sm" := 6; "xs" := 4; "xxs" := 2 ]}.

Definition caller_layouts : Responsive.Objects :=
  [ {[ "lg" := [Item.plain "a" 0 0 6 2; Item.plain "b" 6 0 6 2] ]} ].

Definition wide_props : @Responsive.Props unit :=
  Responsive.mkProps None default_breakpoints default_cols 0%nat 1300
                     Vertical tt.

Definition md_state : Responsive.State :=
  Responsive.mkState [Item.plain "a" 0 0 5 2; Item.plain "b" 5 0 5 2] "md" 10.

(** Breakpoints of which the narrowest is named [constructor], and a
    grid that was showing it when the width became 1300. *)
Definition inherited_breakpoints : Responsive.Config :=
  Responsive.mkConfig 3 {[ "constructor" := 0; "lg" := 1200 ]}.

Definition inherited_cols : Responsive.Config :=
  Responsive.mkConfig 4 {[ "constructor" := 2; "lg" := 12 ]}.

Definition inherited_props : @Responsive.Props unit :=
  Responsive.mkProps None inherited_breakpoints inherited_cols 0%nat 1300
                     Vertical tt.

Definition inherited_state : Responsive.State :=
  Responsive.mkState [Item.plain "a" 0 0 2 2] "constructor" 2.

(** Scenario D of the spec: item [a] at [x = 0] next to a static
    neighbour occupying the columns 4 and 5, with [preventCollision]
    on; the resize asks for a width of 5. *)
Definition scenario_D_props : RGL.Props :=
  RGL.mkProps 12 Vertical true true true true false.

Definition scenario_D : RGL.State :=
  RGL.idle [Item.plain "a" 0 0 2 2; Item.fixed "b" 4 0 2 2].

(** A grid of twelve columns with vertical compaction and the default
    flags, showing the single item [a]. *)
Definition plain_props : RGL.Props :=
  RGL.mkProps 12 Vertical true false true true false.

Definition single_item : RGL.State := RGL.idle [Item.plain "a" 0 0 1 1].

(** Three items within six columns, overlapping at the origin. *)
Definition crowded : Layout :=
  [Item.plain "a" 0 0 4 2; Item.plain "b" 0 1 1 1; Item.plain "c" 1 0 3 2].

(** Scenario A of the spec: two overlapping items of width 6. *)
Definition scenario_A : Layout :=
  [Item.plain "a" 0 0 6 2; Item.plain "b" 0 0 6 2].

(** A grid item at column 2 of a 12-column grid, 1200 pixels wide with
    margins and padding of 10 pixels; the item is two columns wide and
    one row high and is dragged within its container. *)
Definition drag_props : GridItemDrag.Props :=
  GridItemDrag.mkProps
    (GridItem.mkProps 12 2 0 "a" 1 Infinity 1 Infinity Infinity
                      1200%Q (10%Q, 10%Q) (10%Q, 10%Q) 150%Q
                      ["onDragStart"; "onDrag"; "onDragStop"])
    2 1 true.

(** A container 600 pixels high at the origin of the page, not
    scrolled, and the item's node 30 pixels in from its corner. *)
Definition drag_node : GridItemDrag.Node :=
  GridItemDrag.mkNode
    (Some (GridItemDrag.mkOffsetParent (GridItemDrag.mkPoint 0%Q 0%Q)
                                       0%Q 0%Q 600%Q))
    (GridItemDrag.mkPoint 30%Q 30%Q).

(** The caller replaces the columns map by one with 8 columns for
    [lg]; width and breakpoints stay as they are, and the grid is
    showing [lg] with 12 columns. *)
Definition narrow_cols : Responsive.Config :=
  Responsive.mkConfig 2
    {[ "lg" := 8; "md" := 10; "sm" := 6; "xs" := 4; "xxs" := 2 ]}.

Definition recols_props : @Responsive.Props unit :=
  Responsive.mkProps None default_breakpoints narrow_cols 0%nat 1300
                     Vertical tt.

Definition lg_state : Responsive.State :=
  Responsive.mkState [Item.plain "a" 0 0 6 2; Item.plain "b" 6 0 6 2] "lg" 12.

(** A layout validator for the examples: it rejects items left of the
    grid. *)
Definition sample_validateLayout (layout : Layout) (context : string)
  : option string :=
  if forallb (fun l => 0 <=? Item.x l) layout then None
  else Some (String.append context " has an item with negative x").


(* ================================================================== *)
(** * Properties *)

(* ------------------------------------------------------------------ *)
(** ** Per-item flags *)

Section Flags.

Variable p : RGL.Props.
Variable l : LayoutItem.

Lemma draggable_true_iff :
  RGL.draggable p l = true <->
  Item.static l = false /\ RGL.isDraggable p = true
  /\ Item.isDraggable l <> Some false.
Proof.
  unfold RGL.draggable, RGL.setOrNull.
  destruct (Item.static l), (RGL.isDraggable p),
    (Item.isDraggable l) as [[]|]; simpl;
    (split; [intros H; try discriminate H; repeat split; congruence
            |intros (H1 & H2 & H3); congruence]).
Qed.

(** A static item, an item that opts out of dragging and a container
    that disables dragging all give a non-bounded item. *)
Lemma not_draggable_not_bounded :
  Item.static l = true \/ Item.isDraggable l = Some false
  \/ RGL.isDraggable p = false ->
  RGL.bounded p l = false.
Proof.
  intros H. unfold RGL.bounded.
  destruct (RGL.draggable p l) eqn:Hd; [|reflexivity].
  apply draggable_true_iff in Hd as (H1 & H2 & H3).
  destruct H as [H | [H | H]]; congruence.
Qed.

(** C9.  The effective bounded flag is true only if the effective
    draggable flag is true: a bounded item is not static, its own
    [isDraggable] is not [false] and the container's [isDraggable] is
    true, whatever the item's or the container's [isBounded] says. *)
Theorem bounded_only_if_draggable :
  RGL.bounded p l = true ->
  RGL.draggable p l = true
  /\ Item.static l = false
  /\ Item.isDraggable l <> Some false
  /\ RGL.isDraggable p = true.
Proof.
  unfold RGL.bounded. intros Hb.
  apply andb_prop in Hb as [Hb _]. apply andb_prop in Hb as [Hd _].
  split; [exact Hd|].
  apply draggable_true_iff in Hd. tauto.
Qed.

End Flags.

Lemma bounded_only_if_draggable_witness :
  RGL.bounded flags_props (Item.plain "a" 0 0 1 1) = true
  /\ RGL.draggable flags_props (Item.plain "a" 0 0 1 1) = true.
Proof.
  split; [reflexivity|].
  apply (bounded_only_if_draggable flags_props (Item.plain "a" 0 0 1 1)).
  reflexivity.
Defined.

(* ------------------------------------------------------------------ *)
(** ** Grid units delivered by a resize gesture *)

Section ResizeClamp.

Import JSNumber GridItemResize.

(** A clamp to ordered bounds lands within them, unless it is given
    [NaN], which [Math.min] and [Math.max] hand on. *)
Lemma clamp_within (lo : Z) (hi : number) (v : rounded) :
  v <> NaN -> Num.le lo hi -> within lo hi (clamp lo hi v).
Proof.
  unfold clamp, within, Num.le.
  destruct v as [z| | |], hi as [m|]; simpl; intros Hv Hle;
    try contradiction; try reflexivity; try lia; try (split; [lia | exact I]).
Qed.

Lemma clamp_NaN (lo : Z) (hi : number) (v : rounded) :
  clamp lo hi v = NaN <-> v = NaN.
Proof.
  unfold clamp. destruct v as [z| | |], hi as [m|]; simpl;
    split; intros H; try discriminate H; reflexivity.
Qed.

(** A clamp to a finite upper bound is an integer, [NaN] apart. *)
Lemma clamp_finite (lo m : Z) (v : rounded) :
  v <> NaN ->
  exists z : Z, clamp lo (Fin m) v = Integral z /\ lo <= z /\ (lo <= m -> z <= m).
Proof.
  unfold clamp. destruct v as [z| | |]; simpl; intros Hv;
    try contradiction; eexists; (split; [reflexivity | lia]).
Qed.

(** The cap of [calcWH] to [[0, c]] changes nothing for the clamp to
    [[1, c]] that follows it. *)
Lemma clamp_absorbs_cap (c : Z) (v : rounded) :
  clamp 1 (Fin c) (max (min v (Fin c)) 0) = clamp 1 (Fin c) v.
Proof.
  unfold clamp. destruct v as [z| | |]; simpl; try reflexivity; f_equal; lia.
Qed.

Lemma onResizeHandler_no_handler (p : Props) (r : option Size) (s : Size)
      (name : string) :
  name ∉ handlers p -> onResizeHandler p r s name = (r, None).
Proof.
  intros H. unfold onResizeHandler.
  rewrite bool_decide_eq_false_2 by exact H. reflexivity.
Qed.

(** C6.  For a resize gesture of pixel size [s] on an item at column
    [x] of a grid of [cols] columns, the size delivered to the resize
    handler is: [w], the pixel-derived width clamped to
    [[1, cols - x]] and then to [[minW, maxW]]; [h], the pixel-derived
    height clamped to [[minH, maxH]].  The pixel-derived size is what
    the gesture gives in grid units: [Math.round] of the pixel width
    plus margin over the column width plus margin, capped to
    [[0, cols - x]], and likewise for the height with the row height,
    capped to [[0, maxRows - y]]; the arithmetic is that of doubles.
    With bounds in order the delivered size lies within them, unless a
    quotient is [NaN], which every [Math.min] and [Math.max] hands
    on. *)
Theorem onResizeHandler_clamps (p : Props) (r : option Size) (s : Size)
        (name : string) :
  name ∈ handlers p ->
  let colWidth :=
    ((containerWidth p - fst (margin p) * ofZ (cols p - 1)
      - fst (containerPadding p) * 2) / ofZ (cols p))%float in
  let pixelW :=
    max (min (round ((width s + fst (margin p))
                     / (colWidth + fst (margin p)))%float)
             (Fin (cols p - x p))) 0 in
  let pixelH :=
    max (min (round ((height s + snd (margin p))
                     / (rowHeight p + snd (margin p)))%float)
             (Num.sub (maxRows p) (y p))) 0 in
  exists c : ResizeCall,
    snd (onResizeHandler p r s name) = Some c
    /\ handlerName c = name /\ key c = i p /\ size c = s
    /\ gridW c = clamp (minW p) (maxW p) (clamp 1 (Fin (cols p - x p)) pixelW)
    /\ gridH c = clamp (minH p) (maxH p) pixelH
    /\ (pixelW <> NaN -> Num.le (minW p) (maxW p) ->
        exists w : Z, gridW c = Integral w /\ minW p <= w /\ Num.le w (maxW p))
    /\ (pixelH <> NaN -> Num.le (minH p) (maxH p) ->
        within (minH p) (maxH p) (gridH c)).
Proof.
  intros Hin colWidth pixelW pixelH. unfold onResizeHandler.
  rewrite bool_decide_eq_true_2 by exact Hin. simpl.
  unfold calcWH, calcColWidth. fold colWidth. fold pixelW. fold pixelH.
  eexists. split; [reflexivity|]. simpl.
  fold (clamp 1 (Fin (cols p - x p)) pixelW).
  fold (clamp (minW p) (maxW p) (clamp 1 (Fin (cols p - x p)) pixelW)).
  fold (clamp (minH p) (maxH p) pixelH).
  repeat split.
  - intros Hnan Hle.
    destruct (clamp_finite 1 (cols p - x p) pixelW Hnan) as (z & Hz & _).
    rewrite Hz.
    pose proof (clamp_within (minW p) (maxW p) (Integral z)
                             ltac:(discriminate) Hle) as Hw.
    unfold clamp in *. destruct (maxW p) as [m|]; simpl in *; eauto.
  - intros Hnan Hle. apply clamp_within; assumption.
Qed.

End ResizeClamp.

Lemma onResizeHandler_clamps_witness :
  "onResize" ∈ GridItemResize.handlers resize_props
  /\ exists c : GridItemResize.ResizeCall,
       snd (GridItemResize.onResizeHandler resize_props None resize_size
                                           "onResize")
       = Some c
       /\ GridItemResize.gridW c = JSNumber.Integral 1
       /\ GridItemResize.gridH c = JSNumber.Integral 2.
Proof.
  assert (Hin : "onResize" ∈ GridItemResize.handlers resize_props)
    by (apply (bool_decide_unpack _); vm_compute; exact I).
  split; [exact Hin|].
  destruct (onResizeHandler_clamps resize_props None resize_size "onResize" Hin)
    as (c & Hc & _ & _ & _ & Hw & Hh & _).
  exists c. split; [exact Hc|]. split.
  - rewrite Hw. vm_compute. reflexivity.
  - rewrite Hh. vm_compute. reflexivity.
Defined.

(* ------------------------------------------------------------------ *)
(** ** Breakpoint resolution *)

Section BreakpointFromWidth.

Import Breakpoints.

Lemma insertDesc_perm (a : string * Z) (l : list (string * Z)) :
  insertDesc a l ≡ₚ a :: l.
Proof.
  induction l as [|b l IH]; simpl; [reflexivity|].
  destruct (snd b <=? snd a); [reflexivity|].
  rewrite IH. apply Permutation_swap.
Qed.

Lemma insertDesc_descending (a : string * Z) (l : list (string * Z)) :
  descending l -> descending (insertDesc a l).
Proof.
  unfold descending. induction 1 as [|b l Hs IH Hb]; simpl.
  - repeat constructor.
  - destruct (snd b <=? snd a) eqn:E.
    + apply Z.leb_le in E. constructor; [constructor; assumption|].
      constructor; [exact E|].
      eapply Forall_impl; [exact Hb|]. simpl. intros; lia.
    + apply Z.leb_gt in E. constructor; [exact IH|].
      rewrite insertDesc_perm. constructor; [lia | exact Hb].
Qed.

Lemma sortBreakpoints_perm (bps : gmap string Z) :
  sortBreakpoints bps ≡ₚ map_to_list bps.
Proof.
  unfold sortBreakpoints. induction (map_to_list bps) as [|a l IH]; simpl.
  - reflexivity.
  - rewrite insertDesc_perm, IH. reflexivity.
Qed.

Lemma sortBreakpoints_descending (bps : gmap string Z) :
  descending (sortBreakpoints bps).
Proof.
  unfold sortBreakpoints. induction (map_to_list bps) as [|a l IH]; simpl.
  - constructor.
  - apply insertDesc_descending, IH.
Qed.

Lemma elem_of_sortBreakpoints (bps : gmap string Z) (n : string) (t : Z) :
  (n, t) ∈ sortBreakpoints bps <-> bps !! n = Some t.
Proof. rewrite sortBreakpoints_perm. apply elem_of_map_to_list. Qed.

(** In a descending list, the first entry not above [width] carries the
    largest threshold not above [width]. *)
Lemma find_descending (l : list (string * Z)) (width : Z) (b : string * Z) :
  descending l ->
  List.find (fun b => snd b <=? width) l = Some b ->
  b ∈ l /\ snd b <= width
  /\ forall c, c ∈ l -> snd c <= width -> snd c <= snd b.
Proof.
  unfold descending. induction 1 as [|a l Hs IH Ha]; simpl; [discriminate|].
  destruct (snd a <=? width) eqn:E.
  - intros [= <-]. apply Z.leb_le in E.
    split; [left|]. split; [exact E|].
    intros c Hc _. apply elem_of_cons in Hc as [-> | Hc]; [lia|].
    rewrite Forall_forall in Ha. apply Ha, Hc.
  - intros Hf. apply Z.leb_gt in E.
    destruct (IH Hf) as (Hin & Hle & Hmax).
    split; [right; exact Hin|]. split; [exact Hle|].
    intros c Hc Hcw. apply elem_of_cons in Hc as [-> | Hc]; [lia|].
    apply Hmax; assumption.
Qed.

Lemma find_none_all_above (l : list (string * Z)) (width : Z) :
  List.find (fun b => snd b <=? width) l = None ->
  forall c, c ∈ l -> width < snd c.
Proof.
  induction l as [|a l IH]; simpl; intros Hf c Hc.
  - inversion Hc.
  - destruct (snd a <=? width) eqn:E; [discriminate|].
    apply Z.leb_gt in E.
    apply elem_of_cons in Hc as [-> | Hc]; [exact E | apply IH; assumption].
Qed.

(** The last entry of a descending list carries the smallest
    threshold. *)
Lemma last_descending (l : list (string * Z)) (b : string * Z) :
  descending l -> last l = Some b ->
  b ∈ l /\ forall c, c ∈ l -> snd b <= snd c.
Proof.
  unfold descending. induction 1 as [|a l Hs IH Ha]; simpl; [discriminate|].
  destruct l as [|a' l'].
  - intros [= <-]. split; [left|].
    intros c Hc. apply list_elem_of_singleton in Hc as ->. lia.
  - intros Hl. destruct (IH Hl) as (Hin & Hmin).
    split; [right; exact Hin|].
    intros c Hc. apply elem_of_cons in Hc as [-> | Hc]; [|apply Hmin, Hc].
    rewrite Forall_forall in Ha. apply Ha, Hin.
Qed.

(** C8.  [getBreakpointFromWidth] returns the name of the largest pixel
    threshold that is [<= width], and the breakpoint of the smallest
    threshold when the width is below every threshold. *)
Theorem getBreakpointFromWidth_largest_below (bps : gmap string Z) (width : Z) :
  bps <> ∅ ->
  exists (name : string) (t : Z),
    getBreakpointFromWidth bps width = Some name
    /\ bps !! name = Some t
    /\ ((t <= width
         /\ forall n' t', bps !! n' = Some t' -> t' <= width -> t' <= t)
        \/ (width < t
            /\ forall n' t', bps !! n' = Some t' -> width < t' /\ t <= t')).
Proof.
  intros Hne. unfold getBreakpointFromWidth.
  pose proof (sortBreakpoints_descending bps) as Hd.
  destruct (List.find _ (sortBreakpoints bps)) as [[n t]|] eqn:Hf.
  - destruct (find_descending _ _ _ Hd Hf) as (Hin & Hle & Hmax).
    exists n, t. split; [reflexivity|].
    split; [apply elem_of_sortBreakpoints, Hin|].
    left. split; [exact Hle|].
    intros n' t' Hn' Ht'.
    apply (Hmax (n', t')); [apply elem_of_sortBreakpoints, Hn' | exact Ht'].
  - pose proof (find_none_all_above _ _ Hf) as Habove.
    destruct (last (sortBreakpoints bps)) as [[n t]|] eqn:Hl.
    + destruct (last_descending _ _ Hd Hl) as (Hin & Hmin).
      exists n, t. split; [reflexivity|].
      split; [apply elem_of_sortBreakpoints, Hin|].
      right. split; [apply (Habove (n, t)), Hin|].
      intros n' t' Hn'. apply elem_of_sortBreakpoints in Hn'.
      split; [apply (Habove (n', t')), Hn' | apply (Hmin (n', t')), Hn'].
    + exfalso. apply Hne. apply last_None in Hl.
      apply map_to_list_empty_iff.
      apply Permutation_nil_r. rewrite <- Hl.
      symmetry. apply sortBreakpoints_perm.
Qed.

End BreakpointFromWidth.

(** Scenario B: with [{lg: 1200, md: 996, xs: 480}] and width 800 the
    only threshold not above the width is 480, and the resolved
    breakpoint is [xs]. *)
Lemma getBreakpointFromWidth_scenario_B :
  scenario_B <> ∅
  /\ getBreakpointFromWidth scenario_B 800 = Some "xs"
  /\ exists t : Z, scenario_B !! "xs" = Some t /\ t <= 800.
Proof.
  assert (Hne : scenario_B <> ∅).
  { intros H. apply (f_equal (fun m => m !! "md")) in H.
    vm_compute in H. discriminate H. }
  split; [exact Hne|].
  destruct (getBreakpointFromWidth_largest_below scenario_B 800 Hne)
    as (name & t & Hname & Ht & Hcase).
  assert (Hxs : getBreakpointFromWidth scenario_B 800 = Some "xs")
    by (vm_compute; reflexivity).
  split; [exact Hxs|].
  rewrite Hxs in Hname. injection Hname as <-.
  exists t. split; [exact Ht|].
  destruct Hcase as [[Hle _] | [Hgt _]]; [exact Hle|].
  exfalso. vm_compute in Ht. injection Ht as <-. lia.
Defined.

(** The breakpoint [md] of scenario B has the threshold 996, above the
    width 800: it is not the resolved breakpoint. *)
Lemma getBreakpointFromWidth_scenario_B_not_md :
  scenario_B !! "md" = Some 996
  /\ getBreakpointFromWidth scenario_B 800 <> Some "md".
Proof. split; [vm_compute; reflexivity | vm_compute; discriminate]. Qed.

(* ------------------------------------------------------------------ *)
(** ** The responsive wrapper and the caller's set of layouts *)

Section ResponsiveWrapper.

Import Responsive.

Context {Children : Type}.
Variable findOrGenerateResponsiveLayout :
  gmap string Layout -> gmap string Z -> string -> string -> Z ->
  CompactType -> Layout.
Variable synchronizeLayoutWithChildren :
  Layout -> Children -> Z -> CompactType -> Layout.

Local Abbreviation Props := (@Responsive.Props Children).
Local Abbreviation derived :=
  (Responsive.derived findOrGenerateResponsiveLayout
                      synchronizeLayoutWithChildren).

Lemma cloneLayoutItem_id (l : LayoutItem) : cloneLayoutItem l = l.
Proof. destruct l; reflexivity. Qed.

Lemma cloneLayout_id (layout : Layout) : cloneLayout layout = layout.
Proof.
  unfold cloneLayout. induction layout as [|l layout IH]; simpl;
    [reflexivity | rewrite cloneLayoutItem_id, IH; reflexivity].
Qed.

Lemma lookup_total_fresh (objs : Objects) (m : gmap string Layout) :
  (objs ++ [m]) !!! length objs = m.
Proof.
  apply list_lookup_total_correct.
  rewrite lookup_app_r by lia. rewrite Nat.sub_diag. reflexivity.
Qed.

Lemma lookup_total_old (objs : Objects) (m : gmap string Layout) (o : ref) :
  (o < length objs)%nat -> (objs ++ [m]) !!! o = objs !!! o.
Proof.
  intros Ho. destruct (lookup_lt_is_Some_2 objs o Ho) as [v Hv].
  rewrite (list_lookup_total_correct _ _ _ Hv).
  apply list_lookup_total_correct. rewrite lookup_app_l by exact Ho. exact Hv.
Qed.

(** A write to the new object leaves the objects before it alone. *)
Lemma assign_fresh (objs : Objects) (m : gmap string Layout) (k : string)
      (v : Layout) :
  assign (objs ++ [m]) (length objs) k v = objs ++ [<[k := v]> m].
Proof.
  unfold assign. rewrite lookup_total_fresh.
  rewrite insert_app_r_alt by lia. rewrite Nat.sub_diag. reflexivity.
Qed.

Lemma onLayoutChange_eq (p : Props) (st : State) (objs : Objects)
      (newLayout : Layout) :
  onLayoutChange p st objs newLayout
  = (objs ++ [<[stBreakpoint st := newLayout]> (objs !!! layouts p)],
     [props_onLayoutChange newLayout (length objs)]).
Proof. unfold onLayoutChange, spread. rewrite assign_fresh. reflexivity. Qed.

(** [hasKey] on the caller's object, read after the spread. *)
Lemma hasKey_after_spread (objs : Objects) (m : gmap string Layout)
      (k : string) (o : ref) :
  (o < length objs)%nat ->
  hasKey (objs ++ [m]) k o = hasKey objs k o.
Proof. intros Ho. unfold hasKey. rewrite lookup_total_old by exact Ho. reflexivity. Qed.

(** [k in o] is false only for a name that is neither an own property
    nor inherited. *)
Lemma inObject_false {A : Type} (k : string) (m : gmap string A) :
  inObject k m = false <-> m !! k = None /\ k ∉ inherited.
Proof.
  unfold inObject. rewrite orb_false_iff, !bool_decide_eq_false.
  rewrite <- eq_None_not_Some. reflexivity.
Qed.

(** What [onWidthChange] does when the breakpoint block runs. *)
Lemma onWidthChange_changed (thisProps nextProps : Props) (st : State)
      (objs : Objects) (newBreakpoint : string) (newCols : Z) :
  (layouts nextProps < length objs)%nat ->
  resolveBreakpoint nextProps = Some newBreakpoint ->
  getColsFromBreakpoint newBreakpoint (props (cols nextProps)) = Some newCols ->
  negb (String.eqb (stBreakpoint st) newBreakpoint)
  || negb (sameObject (breakpoints thisProps) (breakpoints nextProps))
  || negb (sameObject (cols thisProps) (cols nextProps))
  = true ->
  onWidthChange findOrGenerateResponsiveLayout synchronizeLayoutWithChildren
                thisProps nextProps st objs
  = Some (objs ++ [<[newBreakpoint := derived nextProps st objs newBreakpoint newCols]>
                     (preserved (objs !!! layouts nextProps)
                                (stBreakpoint st) (layout st))],
          mkState (derived nextProps st objs newBreakpoint newCols)
                  newBreakpoint newCols,
          [props_onBreakpointChange newBreakpoint newCols;
           props_onLayoutChange
             (derived nextProps st objs newBreakpoint newCols) (length objs);
           props_onWidthChange (width nextProps) newCols]).
Proof.
  intros Hvalid Hbp Hcols Hchg. unfold onWidthChange, derived.
  rewrite Hbp, Hcols, Hchg. unfold spread.
  rewrite hasKey_after_spread by exact Hvalid. unfold preserved, hasKey.
  destruct (inObject (stBreakpoint st) (objs !!! layouts nextProps)) eqn:Hlast.
  - simpl. rewrite lookup_total_fresh, assign_fresh. reflexivity.
  - simpl. rewrite assign_fresh, lookup_total_fresh, assign_fresh.
    reflexivity.
Qed.

(** Without a breakpoint change only the width is reported. *)
Lemma onWidthChange_same (thisProps nextProps : Props) (st : State)
      (objs : Objects) (newBreakpoint : string) (newCols : Z) :
  resolveBreakpoint nextProps = Some newBreakpoint ->
  getColsFromBreakpoint newBreakpoint (props (cols nextProps)) = Some newCols ->
  negb (String.eqb (stBreakpoint st) newBreakpoint)
  || negb (sameObject (breakpoints thisProps) (breakpoints nextProps))
  || negb (sameObject (cols thisProps) (cols nextProps))
  = false ->
  onWidthChange findOrGenerateResponsiveLayout synchronizeLayoutWithChildren
                thisProps nextProps st objs
  = Some (objs, st, [props_onWidthChange (width nextProps) newCols]).
Proof.
  intros Hbp Hcols Hchg. unfold onWidthChange.
  rewrite Hbp, Hcols, Hchg. reflexivity.
Qed.

(** C7.  The responsive wrapper never writes to the caller's [layouts]
    object.  [onWidthChange] leaves every object that existed before
    the call as it was; the mapping it hands to [onLayoutChange] is a
    new object: the caller's properties, the preserved layout of the
    outgoing breakpoint, and the derived layout under the new
    breakpoint.  The wrapped [onLayoutChange] likewise reports a new
    object, the caller's properties with the current breakpoint's entry
    replaced. *)
Theorem layouts_never_mutated (thisProps nextProps : Props) (st : State)
        (objs : Objects) (newLayout : Layout) :
  (layouts nextProps < length objs)%nat ->
  (forall objs' st' calls,
      onWidthChange findOrGenerateResponsiveLayout synchronizeLayoutWithChildren
                    thisProps nextProps st objs = Some (objs', st', calls) ->
      objs' !! layouts nextProps = objs !! layouts nextProps
      /\ objs `prefix_of` objs'
      /\ forall lay o,
          props_onLayoutChange lay o ∈ calls ->
          o = length objs
          /\ objs' !! o
             = Some (<[stBreakpoint st' := lay]>
                       (preserved (objs !!! layouts nextProps)
                                  (stBreakpoint st) (layout st))))
  /\ (let '(objs', calls) := onLayoutChange nextProps st objs newLayout in
      objs' !! layouts nextProps = objs !! layouts nextProps
      /\ objs `prefix_of` objs'
      /\ calls = [props_onLayoutChange newLayout (length objs)]
      /\ objs' !! length objs
         = Some (<[stBreakpoint st := newLayout]> (objs !!! layouts nextProps))).
Proof.
  intros Hvalid. split.
  - intros objs' st' calls Hrun.
    destruct (resolveBreakpoint nextProps) as [newBreakpoint|] eqn:Hbp.
    2:{ unfold onWidthChange in Hrun. rewrite Hbp in Hrun. discriminate. }
    destruct (getColsFromBreakpoint newBreakpoint (props (cols nextProps)))
      as [newCols|] eqn:Hcols.
    2:{ unfold onWidthChange in Hrun. rewrite Hbp, Hcols in Hrun. discriminate. }
    destruct (negb (String.eqb (stBreakpoint st) newBreakpoint)
              || negb (sameObject (breakpoints thisProps) (breakpoints nextProps))
              || negb (sameObject (cols thisProps) (cols nextProps))) eqn:Hchg.
    + rewrite (onWidthChange_changed _ _ _ _ _ _ Hvalid Hbp Hcols Hchg) in Hrun.
      injection Hrun as <- <- <-.
      split; [apply lookup_app_l, Hvalid|].
      split; [apply prefix_app_r; reflexivity|].
      intros lay o Hin.
      repeat (apply elem_of_cons in Hin as [Hin | Hin]; [try discriminate Hin|]).
      * injection Hin as -> ->. split; [reflexivity|].
        rewrite lookup_app_r by lia. rewrite Nat.sub_diag. reflexivity.
      * inversion Hin.
    + rewrite (onWidthChange_same _ _ _ _ _ _ Hbp Hcols Hchg) in Hrun.
      injection Hrun as <- <- <-.
      split; [reflexivity|]. split; [reflexivity|].
      intros lay o Hin.
      apply list_elem_of_singleton in Hin. discriminate Hin.
  - rewrite onLayoutChange_eq.
    split; [apply lookup_app_l, Hvalid|].
    split; [apply prefix_app_r; reflexivity|].
    split; [reflexivity|].
    rewrite lookup_app_r by lia. rewrite Nat.sub_diag. reflexivity.
Qed.

(** On a change of breakpoint, when [lastBreakpoint in layouts] is
    false (the outgoing breakpoint is neither an entry of the [layouts]
    prop nor a name that objects inherit), the layout in state is put
    under the outgoing breakpoint's key before the new breakpoint's
    layout is derived: the set handed to
    [findOrGenerateResponsiveLayout] and the set handed to
    [onLayoutChange] both hold the outgoing breakpoint's arrangement. *)
Lemma outgoing_breakpoint_preserved (thisProps nextProps : Props)
      (st : State) (objs : Objects) (newBreakpoint : string) (newCols : Z) :
  (layouts nextProps < length objs)%nat ->
  resolveBreakpoint nextProps = Some newBreakpoint ->
  getColsFromBreakpoint newBreakpoint (props (cols nextProps)) = Some newCols ->
  stBreakpoint st <> newBreakpoint ->
  hasKey objs (stBreakpoint st) (layouts nextProps) = false ->
  let kept := <[stBreakpoint st := cloneLayout (layout st)]>
                (objs !!! layouts nextProps) in
  let newLayout :=
    synchronizeLayoutWithChildren
      (findOrGenerateResponsiveLayout
         kept (props (breakpoints nextProps)) newBreakpoint
         (stBreakpoint st) newCols (compactType nextProps))
      (children nextProps) newCols (compactType nextProps) in
  exists objs' calls,
    onWidthChange findOrGenerateResponsiveLayout synchronizeLayoutWithChildren
                  thisProps nextProps st objs
    = Some (objs', mkState newLayout newBreakpoint newCols, calls)
    /\ kept !! stBreakpoint st = Some (layout st)
    /\ props_onLayoutChange newLayout (length objs) ∈ calls
    /\ exists reported,
        objs' !! length objs = Some reported
        /\ reported !! stBreakpoint st = Some (layout st)
        /\ reported !! newBreakpoint = Some newLayout
        /\ forall k, k <> stBreakpoint st -> k <> newBreakpoint ->
                     reported !! k = (objs !!! layouts nextProps) !! k.
Proof.
  intros Hvalid Hbp Hcols Hne Hnone kept newLayout.
  assert (Hchg : negb (String.eqb (stBreakpoint st) newBreakpoint)
                 || negb (sameObject (breakpoints thisProps) (breakpoints nextProps))
                 || negb (sameObject (cols thisProps) (cols nextProps)) = true).
  { apply String.eqb_neq in Hne. rewrite Hne. reflexivity. }
  rewrite (onWidthChange_changed _ _ _ _ _ _ Hvalid Hbp Hcols Hchg).
  unfold derived, preserved. unfold hasKey in Hnone. rewrite Hnone.
  fold kept. fold newLayout.
  eexists _, _. split; [reflexivity|].
  split; [unfold kept; rewrite lookup_insert_eq, cloneLayout_id; reflexivity|].
  split; [right; left|].
  exists (<[newBreakpoint := newLayout]> kept).
  split; [rewrite lookup_app_r by lia; rewrite Nat.sub_diag; reflexivity|].
  split.
  { rewrite lookup_insert_ne by congruence.
    unfold kept. rewrite lookup_insert_eq, cloneLayout_id. reflexivity. }
  split; [apply lookup_insert_eq|].
  intros k Hk1 Hk2. rewrite lookup_insert_ne by congruence.
  unfold kept. rewrite lookup_insert_ne by congruence. reflexivity.
Qed.

(** When [lastBreakpoint in layouts] is true nothing is put under the
    outgoing breakpoint: the set handed to
    [findOrGenerateResponsiveLayout] is the caller's own, and the
    object handed to [onLayoutChange] differs from it at the new
    breakpoint only. *)
Lemma outgoing_breakpoint_found (thisProps nextProps : Props)
      (st : State) (objs : Objects) (newBreakpoint : string) (newCols : Z) :
  (layouts nextProps < length objs)%nat ->
  resolveBreakpoint nextProps = Some newBreakpoint ->
  getColsFromBreakpoint newBreakpoint (props (cols nextProps)) = Some newCols ->
  stBreakpoint st <> newBreakpoint ->
  hasKey objs (stBreakpoint st) (layouts nextProps) = true ->
  let newLayout :=
    synchronizeLayoutWithChildren
      (findOrGenerateResponsiveLayout
         (objs !!! layouts nextProps) (props (breakpoints nextProps))
         newBreakpoint (stBreakpoint st) newCols (compactType nextProps))
      (children nextProps) newCols (compactType nextProps) in
  onWidthChange findOrGenerateResponsiveLayout synchronizeLayoutWithChildren
                thisProps nextProps st objs
  = Some (objs ++ [<[newBreakpoint := newLayout]> (objs !!! layouts nextProps)],
          mkState newLayout newBreakpoint newCols,
          [props_onBreakpointChange newBreakpoint newCols;
           props_onLayoutChange newLayout (length objs);
           props_onWidthChange (width nextProps) newCols]).
Proof.
  intros Hvalid Hbp Hcols Hne Hfound newLayout.
  assert (Hchg : negb (String.eqb (stBreakpoint st) newBreakpoint)
                 || negb (sameObject (breakpoints thisProps) (breakpoints nextProps))
                 || negb (sameObject (cols thisProps) (cols nextProps)) = true).
  { apply String.eqb_neq in Hne. rewrite Hne. reflexivity. }
  rewrite (onWidthChange_changed _ _ _ _ _ _ Hvalid Hbp Hcols Hchg).
  unfold derived, preserved. unfold hasKey in Hfound. rewrite Hfound.
  reflexivity.
Qed.

End ResponsiveWrapper.

Lemma layouts_never_mutated_witness :
  (Responsive.layouts wide_props < length caller_layouts)%nat
  /\ exists objs' st' calls,
      Responsive.onWidthChange sample_resolver sample_synchronizer
        wide_props wide_props md_state caller_layouts = Some (objs', st', calls)
      /\ objs' !! Responsive.layouts wide_props
         = caller_layouts !! Responsive.layouts wide_props.
Proof.
  assert (Hvalid : (Responsive.layouts wide_props < length caller_layouts)%nat)
    by (simpl; lia).
  split; [exact Hvalid|].
  destruct (Responsive.onWidthChange sample_resolver sample_synchronizer
              wide_props wide_props md_state caller_layouts)
    as [[[objs' st'] calls]|] eqn:Hrun; [|vm_compute in Hrun; discriminate Hrun].
  exists objs', st', calls. split; [reflexivity|].
  apply (proj1 (layouts_never_mutated sample_resolver sample_synchronizer
                  wide_props wide_props md_state caller_layouts [] Hvalid)
               objs' st' calls Hrun).
Defined.

Lemma outgoing_breakpoint_preserved_witness :
  exists objs' calls reported,
    Responsive.onWidthChange sample_resolver sample_synchronizer
      wide_props wide_props md_state caller_layouts
    = Some (objs',
            Responsive.mkState [Item.plain "a" 0 0 6 2; Item.plain "b" 6 0 6 2]
                               "lg" 12,
            calls)
    /\ objs' !! length caller_layouts = Some reported
    /\ reported !! "md" = Some (Responsive.layout md_state).
Proof.
  destruct (outgoing_breakpoint_preserved sample_resolver sample_synchronizer
              wide_props wide_props md_state caller_layouts "lg" 12)
    as (objs' & calls & Hrun & _ & _ & reported & Hrep & Hmd & _).
  - simpl; lia.
  - vm_compute; reflexivity.
  - vm_compute; reflexivity.
  - simpl; discriminate.
  - vm_compute; reflexivity.
  - exists objs', calls, reported. split; [|split; assumption].
    rewrite Hrun. vm_compute. reflexivity.
Defined.

(** C10, the failing input.  The grid shows the breakpoint named
    [constructor] when the width becomes 1300 and the breakpoint
    changes to [lg]; the [layouts] prop has an entry for [lg] only.
    ["constructor" in layouts] is true all the same, through
    [Object.prototype], so the guard of the insertion fails and the
    layout in state is not put under the outgoing breakpoint: the set
    handed to [findOrGenerateResponsiveLayout] is the caller's own, and
    neither it nor the object handed to [onLayoutChange] has an entry
    for the outgoing breakpoint.  This holds whatever the two missing
    helpers compute. *)
Theorem outgoing_inherited_name_not_preserved
        (findOrGenerateResponsiveLayout :
           gmap string Layout -> gmap string Z -> string -> string -> Z ->
           CompactType -> Layout)
        (synchronizeLayoutWithChildren :
           Layout -> unit -> Z -> CompactType -> Layout) :
  let caller := caller_layouts !!! Responsive.layouts inherited_props in
  let newLayout :=
    synchronizeLayoutWithChildren
      (findOrGenerateResponsiveLayout
         caller (Responsive.props inherited_breakpoints) "lg" "constructor"
         12 Vertical)
      tt 12 Vertical in
  Responsive.stBreakpoint inherited_state = "constructor"
  /\ caller !! "constructor" = None
  /\ Responsive.onWidthChange findOrGenerateResponsiveLayout
                              synchronizeLayoutWithChildren
                              inherited_props inherited_props inherited_state
                              caller_layouts
     = Some (caller_layouts ++ [<["lg" := newLayout]> caller],
             Responsive.mkState newLayout "lg" 12,
             [Responsive.props_onBreakpointChange "lg" 12;
              Responsive.props_onLayoutChange newLayout 1%nat;
              Responsive.props_onWidthChange 1300 12])
  /\ (<["lg" := newLayout]> caller) !! "constructor" = None.
Proof.
  intros caller newLayout.
  split; [reflexivity|]. split; [vm_compute; reflexivity|]. split.
  - apply (outgoing_breakpoint_found findOrGenerateResponsiveLayout
             synchronizeLayoutWithChildren inherited_props inherited_props
             inherited_state caller_layouts "lg" 12).
    + simpl; lia.
    + vm_compute; reflexivity.
    + vm_compute; reflexivity.
    + simpl; discriminate.
    + vm_compute; reflexivity.
  - rewrite lookup_insert_ne by discriminate. vm_compute. reflexivity.
Qed.

(* ------------------------------------------------------------------ *)
(** ** Store and lookup facts *)

Section StoreFacts.

Import Store.

Lemma get_set_eq (hp : Heap) (a : loc) (v : LayoutItem) :
  (a < length hp)%nat -> get (set hp a v) a = v.
Proof.
  intros Ha. unfold get, set. apply list_lookup_total_correct.
  apply list_lookup_insert_eq, Ha.
Qed.

Lemma get_set_ne (hp : Heap) (a b : loc) (v : LayoutItem) :
  a <> b -> get (set hp a v) b = get hp b.
Proof.
  intros Hab. unfold get, set.
  rewrite !list_lookup_total_alt, list_lookup_insert_ne by exact Hab.
  reflexivity.
Qed.

Lemma get_app_l (hp ext : Heap) (a : loc) :
  (a < length hp)%nat -> get (hp ++ ext) a = get hp a.
Proof.
  intros Ha. unfold get.
  rewrite !list_lookup_total_alt, lookup_app_l by exact Ha. reflexivity.
Qed.

Lemma readLayout_app_l (hp ext : Heap) (L : LayoutRef) :
  Forall (fun a => (a < length hp)%nat) L ->
  readLayout (hp ++ ext) L = readLayout hp L.
Proof.
  unfold readLayout. induction 1 as [|a L Ha _ IH]; simpl;
    [reflexivity | rewrite get_app_l, IH by exact Ha; reflexivity].
Qed.

(** The objects just allocated read back as the values given. *)
Lemma readLayout_alloc (hp : Heap) (vals : Layout) :
  readLayout (fst (alloc hp vals)) (snd (alloc hp vals)) = vals.
Proof.
  unfold alloc, readLayout. simpl.
  apply list_eq. intros k. rewrite list_lookup_fmap.
  destruct (decide (k < length vals)%nat) as [Hk|Hk].
  - rewrite lookup_seq_lt by exact Hk. simpl.
    destruct (lookup_lt_is_Some_2 vals k Hk) as [v Hv]. rewrite Hv.
    f_equal. unfold get. apply list_lookup_total_correct.
    rewrite lookup_app_r by lia.
    replace (length hp + k - length hp)%nat with k by lia. exact Hv.
  - rewrite lookup_seq_ge by lia. simpl.
    symmetry. apply lookup_ge_None_2. lia.
Qed.

Lemma readLayout_idle (layout : Layout) :
  readLayout layout (seq 0 (length layout)) = layout.
Proof. exact (readLayout_alloc [] layout). Qed.

(** The reference found by key points to an item of that key, and no
    reference is found when no item of the layout has the key. *)
Lemma getLayoutItem_Some (hp : Heap) (L : LayoutRef) (id : string) (a : loc) :
  getLayoutItem hp L id = Some a -> a ∈ L /\ Item.i (get hp a) = id.
Proof.
  unfold getLayoutItem. intros H. apply find_some in H as [Hin Heq].
  split; [apply list_elem_of_In, Hin | apply String.eqb_eq, Heq].
Qed.

Lemma getLayoutItem_None (hp : Heap) (L : LayoutRef) (id : string) :
  (forall l, l ∈ readLayout hp L -> Item.i l <> id) ->
  getLayoutItem hp L id = None.
Proof.
  intros Habs. unfold getLayoutItem.
  destruct (List.find _ L) as [a|] eqn:Hf; [exfalso | reflexivity].
  apply find_some in Hf as [Hin Heq]. apply String.eqb_eq in Heq.
  apply (Habs (get hp a)); [|exact Heq].
  unfold readLayout. apply list_elem_of_fmap. exists a.
  split; [reflexivity | apply list_elem_of_In, Hin].
Qed.

(** A write to the objects of [L] leaves the other objects alone. *)
Lemma get_writeLayout_other (hp : Heap) (L : LayoutRef) (vals : Layout)
      (b : loc) :
  b ∉ L -> get (writeLayout hp L vals) b = get hp b.
Proof.
  unfold writeLayout. revert hp vals.
  induction L as [|a L IH]; intros hp [|v vals] Hb; simpl; try reflexivity.
  apply not_elem_of_cons in Hb as [Hne Hb].
  rewrite IH by exact Hb. apply get_set_ne. congruence.
Qed.

(** The objects of an array of distinct objects read back as the
    values written to them. *)
Lemma readLayout_writeLayout (hp : Heap) (L : LayoutRef) (vals : Layout) :
  NoDup L -> Forall (fun a => (a < length hp)%nat) L ->
  length vals = length L ->
  readLayout (writeLayout hp L vals) L = vals.
Proof.
  unfold readLayout. revert hp vals.
  induction L as [|a L IH]; intros hp [|v vals] Hnd Hlt Hlen;
    try discriminate Hlen; [reflexivity|].
  apply NoDup_cons in Hnd as [Ha Hnd].
  apply Forall_cons in Hlt as [Halt Hlt].
  injection Hlen as Hlen. cbn [map]. f_equal.
  - change (writeLayout hp (a :: L) (v :: vals))
      with (writeLayout (set hp a v) L vals).
    rewrite get_writeLayout_other by exact Ha. apply get_set_eq, Halt.
  - change (writeLayout hp (a :: L) (v :: vals))
      with (writeLayout (set hp a v) L vals).
    apply IH; [exact Hnd | | exact Hlen].
    unfold set. rewrite length_insert. exact Hlt.
Qed.

End StoreFacts.

(** Looking an item up by key on the store and on the layout read by
    value agree. *)
Lemma getLayoutItem_read (hp : Store.Heap) (L : Store.LayoutRef) (id : string) :
  getLayoutItem (Store.readLayout hp L) id
  = Store.get hp <$> Store.getLayoutItem hp L id.
Proof.
  unfold getLayoutItem, Store.getLayoutItem, Store.readLayout.
  induction L as [|a L IH]; simpl; [reflexivity|].
  destruct (String.eqb (Item.i (Store.get hp a)) id); [reflexivity | exact IH].
Qed.

(** The reference found depends on the keys of the objects only. *)
Lemma getLayoutItem_keys (hp hp' : Store.Heap) (L : Store.LayoutRef)
      (id : string) :
  Item.i <$> Store.readLayout hp' L = Item.i <$> Store.readLayout hp L ->
  Store.getLayoutItem hp' L id = Store.getLayoutItem hp L id.
Proof.
  unfold Store.getLayoutItem, Store.readLayout.
  induction L as [|a L IH]; simpl; [reflexivity|].
  intros [= Ha HL]. rewrite Ha.
  destruct (String.eqb (Item.i (Store.get hp a)) id);
    [reflexivity | exact (IH HL)].
Qed.

(* ------------------------------------------------------------------ *)
(** ** Keys under [moveElement] *)

Section MoveKeys.

Import Placement.

Lemma replaceItem_keys (layout : Layout) (l : LayoutItem) :
  Item.i <$> replaceItem layout l = Item.i <$> layout.
Proof.
  unfold replaceItem. induction layout as [|q layout IH]; simpl;
    [reflexivity|].
  f_equal; [|exact IH].
  destruct (String.eqb (Item.i q) (Item.i l)) eqn:E; [|reflexivity].
  apply String.eqb_eq in E. congruence.
Qed.

(** A fold whose steps keep the keys keeps the keys. *)
Lemma fold_left_keys {B : Type} (f : Layout * B -> LayoutItem -> Layout * B)
      (keys : list string) :
  (forall st q, Item.i <$> fst st = keys -> Item.i <$> fst (f st q) = keys) ->
  forall (qs : Layout) (st : Layout * B),
    Item.i <$> fst st = keys -> Item.i <$> fst (fold_left f qs st) = keys.
Proof.
  intros Hstep qs. induction qs as [|q qs IH]; intros st Hst; simpl;
    [exact Hst | apply IH, Hstep, Hst].
Qed.

Lemma cascade_keys (fuel : nat) (t : CompactType) (mover : LayoutItem)
      (st : Layout * list string) :
  Item.i <$> fst (cascade fuel t mover st) = Item.i <$> fst st.
Proof.
  revert mover st. induction fuel as [|f IH]; intros mover st; simpl;
    [reflexivity|].
  apply fold_left_keys; [|reflexivity].
  intros st' q Hst'.
  destruct (Item.static q || bool_decide (Item.i q ∈ snd st'));
    [exact Hst'|].
  destruct (getLayoutItem (fst st') (Item.i q)) as [qc|]; [|exact Hst'].
  destruct (collides qc mover); [|exact Hst'].
  rewrite IH. simpl. rewrite replaceItem_keys. exact Hst'.
Qed.

Lemma swapPast_keys (t : CompactType) (mover : LayoutItem)
      (st : Layout * list string) :
  Item.i <$> fst (swapPast t mover st) = Item.i <$> fst st.
Proof.
  unfold swapPast. apply fold_left_keys; [|reflexivity].
  intros st' q Hst'.
  destruct (negb (Item.static q) && _ && _); [|exact Hst'].
  simpl. rewrite replaceItem_keys. exact Hst'.
Qed.

(** [moveElement] changes positions only: the layout it returns has
    the keys of the layout it was given, in the same order. *)
Lemma moveElement_keys (layout : Layout) (item : LayoutItem) (toX toY : Z)
      (isUserAction preventCollision : bool) (t : CompactType) (cols : Z) :
  Item.i <$> moveElement layout item toX toY isUserAction preventCollision
                         t cols
  = Item.i <$> layout.
Proof.
  unfold moveElement.
  destruct (getLayoutItem layout (Item.i item)) as [l|]; [|reflexivity].
  destruct preventCollision.
  - destruct (getAllCollisions layout _); [apply replaceItem_keys | reflexivity].
  - rewrite cascade_keys.
    destruct isUserAction; [rewrite swapPast_keys|]; apply replaceItem_keys.
Qed.

End MoveKeys.

(* ------------------------------------------------------------------ *)
(** ** Resize with [preventCollision] *)

Section ResizeShrink.

Import RGL.








End ResizeShrink.



(* ------------------------------------------------------------------ *)
(** ** Events for a key that is not in the layout *)

Section AbsentKey.

Import RGL.

Variable p : Props.
Variable st : State.
Variable i : string.
Hypothesis absent : Store.getLayoutItem (store st) (layoutState st) i = None.

(** Five of the six handlers return at once when the item is not
    found: no state change, no callback. *)
Lemma handlers_absent_key_noop (ev : Event) :
  (exists u v, ev = DragStart i u v \/ ev = Drag i u v \/ ev = DragStop i u v
               \/ ev = ResizeStart i u v \/ ev = Resize i u v) ->
  handle p st ev = (st, []).
Proof.
  intros (u & v & [-> | [-> | [-> | [-> | ->]]]]); simpl;
    [unfold handleDragStart | unfold handleDrag | unfold handleDragStop
     | unfold handleResizeStart | unfold handleResize];
    rewrite absent; reflexivity.
Qed.

(** [handleResizeStop] has no such guard: it calls [onResizeStop] with
    an undefined item and ends the session. *)
Lemma handleResizeStop_absent_key (w h : Z) :
  exists calls,
    snd (handleResizeStop p st i w h)
    = onResizeStop (Store.readLayout (store st) (layoutState st))
                   (oldResizeItem st) None None :: calls
    /\ oldLayout (fst (handleResizeStop p st i w h)) = None
    /\ oldResizeItem (fst (handleResizeStop p st i w h)) = None
    /\ activeDrag (fst (handleResizeStop p st i w h)) = None.
Proof.
  unfold handleResizeStop. rewrite absent.
  destruct (Store.compact _ _ _ _) as [hp1 newLayout]. simpl.
  eexists. repeat split.
Qed.

End AbsentKey.

(** C2, the failing input.  A resize session on [a] is active when a
    resize stop arrives for the key [zz], which is not in the layout:
    [onResizeStop] is invoked, with an undefined item, and the session
    snapshots are cleared. *)
Theorem handleResizeStop_absent_key_not_noop :
  let st := fst (RGL.handleResizeStart plain_props single_item "a" 1 1) in
  Store.getLayoutItem (RGL.store st) (RGL.layoutState st) "zz" = None
  /\ RGL.oldLayout st = Some [0%nat]
  /\ snd (RGL.handleResizeStop plain_props st "zz" 1 1)
     = [RGL.onResizeStop [Item.plain "a" 0 0 1 1]
                         (Some (Item.plain "a" 0 0 1 1)) None None]
  /\ RGL.oldLayout (fst (RGL.handleResizeStop plain_props st "zz" 1 1)) = None
  /\ fst (RGL.handleResizeStop plain_props st "zz" 1 1) <> st.
Proof.
  vm_compute. repeat split; discriminate.
Qed.

(* ------------------------------------------------------------------ *)
(** ** The layout-changed notification *)

Section LayoutMaybeChanged.

Import RGL.

(** [handleLayoutMaybeChanged] fires exactly when the two layouts, as
    they read at the time of the call, differ in some item field. *)
Lemma handleLayoutMaybeChanged_fires (hp : Store.Heap)
      (current newL : Store.LayoutRef) (old : option Store.LayoutRef) :
  handleLayoutMaybeChanged hp current newL old
  = if decide (Store.readLayout hp (default current old)
               = Store.readLayout hp newL)
    then [] else [onLayoutChange (Store.readLayout hp newL)].
Proof.
  unfold handleLayoutMaybeChanged, isEqual.
  destruct old as [o|]; simpl; case_decide.
  - rewrite bool_decide_eq_true_2 by assumption. reflexivity.
  - rewrite bool_decide_eq_false_2 by assumption. reflexivity.
  - rewrite bool_decide_eq_true_2 by assumption. reflexivity.
  - rewrite bool_decide_eq_false_2 by assumption. reflexivity.
Qed.

(** [handleResizeStart] keeps the layout array itself as [oldLayout]:
    the snapshot and the live layout are the same objects. *)
Lemma handleResizeStart_aliases (p : Props) (st : State) (i : string)
      (w h : Z) (a : Store.loc) :
  Store.getLayoutItem (store st) (layoutState st) i = Some a ->
  oldLayout (fst (handleResizeStart p st i w h)) = Some (layoutState st)
  /\ layoutState (fst (handleResizeStart p st i w h)) = layoutState st
  /\ store (fst (handleResizeStart p st i w h)) = store st.
Proof. intros H. unfold handleResizeStart. rewrite H. simpl. auto. Qed.

End LayoutMaybeChanged.

(** C4, the failing input.  The item [a] is resized from width 1 to
    width 2 in one move.  The final layout differs from the layout at
    the start of the session, and no [onLayoutChange] is fired: the
    resize move wrote the new width to the item object that [oldLayout]
    still refers to. *)
Theorem resize_change_not_reported :
  let start := Store.readLayout (RGL.store single_item)
                                (RGL.layoutState single_item) in
  let '(final, calls) :=
    RGL.run plain_props single_item
            [RGL.ResizeStart "a" 1 1; RGL.Resize "a" 2 1;
             RGL.ResizeStop "a" 2 1] in
  start = [Item.plain "a" 0 0 1 1]
  /\ Item.w <$> Store.readLayout (RGL.store final) (RGL.layoutState final) = [2]
  /\ Store.readLayout (RGL.store final) (RGL.layoutState final) <> start
  /\ existsb RGL.isLayoutChange calls = false.
Proof.
  vm_compute. repeat split; discriminate.
Qed.

(* ------------------------------------------------------------------ *)
(** ** The drag move *)

Section DragMove.

Import RGL.

(** C5 as the code has it.  A drag move builds the placeholder
    [{w, h, x, y, placeholder: true, i}] from the item as it lies in the
    layout, calls [moveElement] with [isUserAction = true], and calls
    [onDrag] with the layout that [moveElement] returned, before
    compaction, together with the old item, the updated item (the item
    of key [i] of that layout, which is the object [l] after the move)
    and the placeholder; the compacted layout is then stored as the
    provisional layout, and the placeholder as the active drag. *)
Theorem handleDrag_notifies_moved_layout (p : Props) (st : State) (i : string)
        (x y : Z) (a : Store.loc) :
  Store.getLayoutItem (store st) (layoutState st) i = Some a ->
  NoDup (layoutState st) ->
  Forall (fun b => (b < length (store st))%nat) (layoutState st) ->
  let l := Store.get (store st) a in
  let placeholder :=
    Placeholder.mk (Item.w l) (Item.h l) (Item.x l) (Item.y l) true false i in
  let moved :=
    moveElement (Store.readLayout (store st) (layoutState st)) l x y
                true (preventCollision p) (fixCompactType p) (cols p) in
  let st' := fst (handleDrag p st i x y) in
  exists updated : LayoutItem,
    snd (handleDrag p st i x y)
    = [onDrag moved (oldDragItem st) (Some updated) (Some placeholder)]
    /\ getLayoutItem moved i = Some updated
    /\ Store.readLayout (store st') (layoutState st')
       = compact moved (fixCompactType p) (cols p)
    /\ activeDrag st' = Some placeholder
    /\ oldDragItem st' = oldDragItem st.
Proof.
  intros Hfind Hnd Hlt l placeholder moved st'. subst st'.
  unfold handleDrag. rewrite Hfind.
  unfold Store.moveElement. fold l. fold moved.
  set (hp1 := Store.writeLayout (store st) (layoutState st) moved).
  assert (Hkeys : Item.i <$> moved
                  = Item.i <$> Store.readLayout (store st) (layoutState st))
    by apply moveElement_keys.
  assert (Hlen : length moved = length (layoutState st)).
  { apply (f_equal length) in Hkeys. rewrite !length_fmap in Hkeys.
    rewrite Hkeys. unfold Store.readLayout. apply length_map. }
  assert (Hmod : Store.readLayout hp1 (layoutState st) = moved)
    by (apply readLayout_writeLayout; assumption).
  destruct (Store.compact hp1 (layoutState st) _ _) as [hp2 compacted]
    eqn:Ecompact.
  cbn [fst snd store layoutState activeDrag oldDragItem].
  exists (Store.get hp1 a). rewrite Hmod.
  split; [reflexivity|]. split.
  { rewrite <- Hmod at 1. rewrite getLayoutItem_read.
    rewrite (getLayoutItem_keys (store st) hp1)
      by (rewrite Hmod; exact Hkeys).
    rewrite Hfind. reflexivity. }
  split; [|auto].
  unfold Store.compact in Ecompact.
  pose proof (readLayout_alloc hp1 (compact (Store.readLayout hp1 (layoutState st))
                                            (fixCompactType p) (cols p))) as Hr.
  rewrite Ecompact in Hr. simpl in Hr. rewrite Hr, Hmod. reflexivity.
Qed.

End DragMove.

Lemma handleDrag_notifies_moved_layout_witness :
  let st' := fst (RGL.handleDrag plain_props single_item "a" 0 5) in
  snd (RGL.handleDrag plain_props single_item "a" 0 5)
  = [RGL.onDrag [Item.plain "a" 0 5 1 1] None (Some (Item.plain "a" 0 5 1 1))
                (Some (Placeholder.mk 1 1 0 0 true false "a"))]
  /\ Store.readLayout (RGL.store st') (RGL.layoutState st')
     = [Item.plain "a" 0 0 1 1].
Proof.
  destruct (handleDrag_notifies_moved_layout plain_props single_item "a" 0 5 0%nat)
    as (updated & Hcalls & Hupd & Hstored & _).
  - reflexivity.
  - apply (bool_decide_unpack _). vm_compute. exact I.
  - apply (bool_decide_unpack _). vm_compute. exact I.
  - split.
    + rewrite Hcalls. vm_compute in Hupd. injection Hupd as <-.
      vm_compute. reflexivity.
    + rewrite Hstored. vm_compute. reflexivity.
Defined.

(** The layout that [onDrag] receives is not the provisional layout:
    dragging the only item five rows down, [onDrag] sees it at row 5
    while the layout stored is the compacted one, with the item back at
    row 0. *)
Lemma handleDrag_notified_layout_not_provisional :
  exists (notified : Layout) (oldItem newItem : option LayoutItem)
         (placeholder : option Placeholder.t),
    snd (RGL.handleDrag plain_props single_item "a" 0 5)
    = [RGL.onDrag notified oldItem newItem placeholder]
    /\ notified
       <> Store.readLayout
            (RGL.store (fst (RGL.handleDrag plain_props single_item "a" 0 5)))
            (RGL.layoutState (fst (RGL.handleDrag plain_props single_item "a" 0 5))).
Proof.
  eexists _, _, _, _. split; [vm_compute; reflexivity|].
  vm_compute. discriminate.
Qed.

(* ------------------------------------------------------------------ *)
(** ** Compaction *)

Section Geometry.

Import Compactor.

Lemma collides_sym (a b : LayoutItem) : collides a b = collides b a.
Proof.
  unfold collides.
  rewrite (String.eqb_sym (Item.i a) (Item.i b)).
  rewrite (Z.max_comm (Item.x a)), (Z.min_comm (Item.x a + Item.w a)).
  rewrite (Z.max_comm (Item.y a)), (Z.min_comm (Item.y a + Item.h a)).
  reflexivity.
Qed.

Lemma collides_same_key (a b : LayoutItem) :
  Item.i a = Item.i b -> collides a b = false.
Proof.
  intros H. unfold collides. rewrite H, String.eqb_refl. reflexivity.
Qed.

Lemma setCoord_key (t : CompactType) (l : LayoutItem) (v : Z) :
  Item.i (setCoord t l v) = Item.i l.
Proof. destruct t; reflexivity. Qed.

Lemma setCoord_static (t : CompactType) (l : LayoutItem) (v : Z) :
  Item.static (setCoord t l v) = Item.static l.
Proof. destruct t; reflexivity. Qed.

Lemma coord_setCoord (t : CompactType) (l : LayoutItem) (v : Z) :
  coord t (setCoord t l v) = v.
Proof. destruct t; reflexivity. Qed.

Lemma setCoord_coord (t : CompactType) (l : LayoutItem) :
  setCoord t l (coord t l) = l.
Proof. destruct t, l; reflexivity. Qed.

Lemma setCoord_setCoord (t : CompactType) (l : LayoutItem) (u v : Z) :
  setCoord t (setCoord t l u) v = setCoord t l v.
Proof. destruct t; reflexivity. Qed.

(** Vertical compaction keeps [x] and [w]. *)
Lemma setCoord_vertical_x (l : LayoutItem) (v : Z) :
  Item.x (setCoord Vertical l v) = Item.x l
  /\ Item.w (setCoord Vertical l v) = Item.w l.
Proof. split; reflexivity. Qed.

(** If [p] moved to [v], nearer to the origin, collides with [q], and
    [p] where it lies does not, then [q] lies nearer to the origin than
    [p]. *)
Lemma blocker_before (t : CompactType) (p q : LayoutItem) (v : Z) :
  collides (setCoord t p v) q = true ->
  collides p q = false ->
  v < coord t p ->
  coord t q < coord t p.
Proof.
  unfold collides. intros Hc Hn Hv.
  apply andb_prop in Hc as [Hc Hy]. apply andb_prop in Hc as [Hk Hx].
  rewrite setCoord_key in Hk. rewrite Hk in Hn. simpl in Hn.
  apply Z.ltb_lt in Hx, Hy.
  apply andb_false_iff in Hn as [Hn|Hn]; apply Z.ltb_ge in Hn;
    destruct t, p, q; simpl in *; lia.
Qed.

(** No item reaches beyond the extent of a layout that holds it. *)
Lemma extent_bound (t : CompactType) (placed : Layout) (q : LayoutItem) :
  q ∈ placed -> coord t q + size t q <= extent t placed.
Proof.
  unfold extent. induction placed as [|a placed IH]; intros Hq.
  - inversion Hq.
  - simpl. apply elem_of_cons in Hq as [-> | Hq]; [lia|].
    specialize (IH Hq). lia.
Qed.

Lemma extent_nonneg (t : CompactType) (placed : Layout) : 0 <= extent t placed.
Proof. unfold extent. induction placed as [|a placed IH]; simpl; lia. Qed.

Lemma collidesAny_true (placed : Layout) (l : LayoutItem) :
  collidesAny placed l = true <-> exists q, q ∈ placed /\ collides l q = true.
Proof.
  unfold collidesAny. rewrite existsb_exists.
  split; intros (q & Hq & Hc); exists q; (split; [apply list_elem_of_In, Hq | exact Hc]).
Qed.

Lemma collidesAny_false (placed : Layout) (l : LayoutItem) :
  collidesAny placed l = false <-> forall q, q ∈ placed -> collides l q = false.
Proof.
  split.
  - intros H q Hq. destruct (collides l q) eqn:E; [|reflexivity].
    rewrite <- H. symmetry. apply collidesAny_true. eauto.
  - intros H. destruct (collidesAny placed l) eqn:E; [|reflexivity].
    apply collidesAny_true in E as (q & Hq & Hc). rewrite (H q Hq) in Hc.
    discriminate.
Qed.

(** From the extent on, every position is free. *)
Lemma free_beyond_extent (t : CompactType) (placed : Layout) (l : LayoutItem)
      (v : Z) :
  extent t placed <= v -> collidesAny placed (setCoord t l v) = false.
Proof.
  intros Hv. apply collidesAny_false. intros q Hq.
  pose proof (extent_bound t placed q Hq) as Hb.
  unfold collides.
  destruct (Z.max (Item.x (setCoord t l v)) (Item.x q)
            <? Z.min (Item.x (setCoord t l v) + Item.w (setCoord t l v))
                     (Item.x q + Item.w q)) eqn:Ex;
    [|rewrite andb_false_r; reflexivity].
  destruct (Z.max (Item.y (setCoord t l v)) (Item.y q)
            <? Z.min (Item.y (setCoord t l v) + Item.h (setCoord t l v))
                     (Item.y q + Item.h q)) eqn:Ey;
    [|rewrite andb_false_r; reflexivity].
  exfalso. apply Z.ltb_lt in Ex, Ey.
  destruct t, l, q; simpl in *; lia.
Qed.

End Geometry.

Section CompactItem.

Import Compactor.

(** [firstFree] finds the least free position from [v] on, provided one
    lies within the fuel. *)
Lemma firstFree_least (fuel : nat) (free : Z -> bool) (v : Z) :
  (exists k : nat, (k <= fuel)%nat /\ free (v + Z.of_nat k) = true) ->
  free (firstFree fuel free v) = true
  /\ v <= firstFree fuel free v
  /\ forall u, v <= u < firstFree fuel free v -> free u = false.
Proof.
  revert v. induction fuel as [|f IH]; intros v (k & Hk & Hfree); simpl.
  - assert (k = 0%nat) as -> by lia. rewrite Z.add_0_r in Hfree.
    rewrite Hfree. split; [exact Hfree|]. split; [lia|]. intros u Hu; lia.
  - destruct (free v) eqn:Ev.
    + split; [exact Ev|]. split; [lia|]. intros u Hu; lia.
    + destruct k as [|k'].
      { rewrite Z.add_0_r in Hfree. congruence. }
      destruct (IH (v + 1)) as (H1 & H2 & H3).
      { exists k'. split; [lia|].
        replace (v + 1 + Z.of_nat k') with (v + Z.of_nat (S k')) by lia.
        exact Hfree. }
      split; [exact H1|]. split; [lia|].
      intros u Hu. destruct (Z.eq_dec u v) as [->|Hne]; [exact Ev|].
      apply H3. lia.
Qed.

(** The position [compactItem] chooses is free, and every position
    nearer to the origin is taken. *)
Lemma compactItem_spec (t : CompactType) (placed : Layout) (l : LayoutItem) :
  exists r : Z,
    compactItem t placed l = setCoord t l r
    /\ 0 <= r
    /\ collidesAny placed (setCoord t l r) = false
    /\ forall u, 0 <= u < r -> collidesAny placed (setCoord t l u) = true.
Proof.
  unfold compactItem.
  set (free := fun v => negb (collidesAny placed (setCoord t l v))).
  destruct (firstFree_least (Z.to_nat (extent t placed)) free 0)
    as (H1 & H2 & H3).
  { exists (Z.to_nat (extent t placed)). split; [lia|].
    unfold free. rewrite free_beyond_extent; [reflexivity|].
    pose proof (extent_nonneg t placed). lia. }
  eexists. split; [reflexivity|]. split; [exact H2|].
  split.
  - unfold free in H1. apply negb_true_iff in H1. exact H1.
  - intros u Hu. specialize (H3 u Hu). unfold free in H3.
    apply negb_false_iff in H3. exact H3.
Qed.

(** An item that already lies at its least free position stays. *)
Lemma compactItem_fixed (t : CompactType) (placed : Layout) (p : LayoutItem) :
  0 <= coord t p ->
  collidesAny placed p = false ->
  (forall u, 0 <= u < coord t p -> collidesAny placed (setCoord t p u) = true) ->
  compactItem t placed p = p.
Proof.
  intros H0 Hfree Hleast.
  destruct (compactItem_spec t placed p) as (r & -> & Hr0 & Hrfree & Hrleast).
  assert (r = coord t p) as ->.
  { destruct (Z.lt_trichotomy r (coord t p)) as [Hlt | [Heq | Hgt]];
      [|exact Heq|].
    - rewrite Hleast in Hrfree by lia. discriminate.
    - specialize (Hrleast (coord t p)). rewrite setCoord_coord in Hrleast.
      rewrite Hrleast in Hfree by lia. discriminate. }
  apply setCoord_coord.
Qed.

Lemma compactItem_key (t : CompactType) (placed : Layout) (l : LayoutItem) :
  Item.i (compactItem t placed l) = Item.i l.
Proof. unfold compactItem. apply setCoord_key. Qed.

Lemma compactItem_static (t : CompactType) (placed : Layout) (l : LayoutItem) :
  Item.static (compactItem t placed l) = Item.static l.
Proof. unfold compactItem. apply setCoord_static. Qed.

End CompactItem.

Section Sorting.

Import Compactor.

Variable t : CompactType.

Local Abbreviation notAfter := (Compactor.notAfter t).

Lemma leItem_true (a b : LayoutItem) : leItem t a b = true -> notAfter a b.
Proof.
  unfold leItem, Compactor.notAfter, coord. destruct t; simpl; intros H;
    apply orb_prop in H as [H|H];
    try (apply Z.ltb_lt in H; lia);
    apply andb_prop in H as [H _]; apply Z.eqb_eq in H; lia.
Qed.

Lemma leItem_false (a b : LayoutItem) : leItem t a b = false -> notAfter b a.
Proof.
  unfold leItem, Compactor.notAfter, coord. destruct t; simpl; intros H;
    apply orb_false_elim in H as [H _]; apply Z.ltb_ge in H; lia.
Qed.

Lemma insertItem_perm (a : LayoutItem) (l : Layout) :
  insertItem t a l ≡ₚ a :: l.
Proof.
  induction l as [|b l IH]; simpl; [reflexivity|].
  destruct (leItem t a b); [reflexivity|].
  rewrite IH. apply Permutation_swap.
Qed.

Lemma insertItem_sorted (a : LayoutItem) (l : Layout) :
  StronglySorted notAfter l -> StronglySorted notAfter (insertItem t a l).
Proof.
  induction 1 as [|b l Hs IH Hb]; simpl.
  - repeat constructor.
  - destruct (leItem t a b) eqn:E.
    + apply leItem_true in E. constructor; [constructor; assumption|].
      constructor; [exact E|].
      eapply Forall_impl; [exact Hb|]. unfold Compactor.notAfter in *. simpl.
      intros; lia.
    + apply leItem_false in E. constructor; [exact IH|].
      rewrite insertItem_perm. constructor; [exact E | exact Hb].
Qed.

Lemma sortLayoutItems_perm (layout : Layout) :
  sortLayoutItems t layout ≡ₚ layout.
Proof.
  unfold sortLayoutItems. induction layout as [|a l IH]; simpl.
  - reflexivity.
  - rewrite insertItem_perm, IH. reflexivity.
Qed.

Lemma sortLayoutItems_sorted (layout : Layout) :
  StronglySorted notAfter (sortLayoutItems t layout).
Proof.
  unfold sortLayoutItems. induction layout as [|a l IH]; simpl.
  - constructor.
  - apply insertItem_sorted, IH.
Qed.

Lemma elem_of_sortLayoutItems (layout : Layout) (q : LayoutItem) :
  q ∈ sortLayoutItems t layout <-> q ∈ layout.
Proof. rewrite sortLayoutItems_perm. reflexivity. Qed.

End Sorting.

Section Keys.

(** In a layout with unique keys, an item is determined by its key. *)
Lemma key_inj (layout : Layout) (a b : LayoutItem) :
  NoDup (map Item.i layout) -> a ∈ layout -> b ∈ layout ->
  Item.i a = Item.i b -> a = b.
Proof.
  induction layout as [|c layout IH]; simpl; intros Hnd Ha Hb Hk.
  - inversion Ha.
  - apply NoDup_cons in Hnd as [Hc Hnd].
    apply elem_of_cons in Ha as [-> | Ha], Hb as [-> | Hb].
    + reflexivity.
    + exfalso. apply Hc. rewrite Hk. apply list_elem_of_fmap. eauto.
    + exfalso. apply Hc. rewrite <- Hk. apply list_elem_of_fmap. eauto.
    + apply IH; assumption.
Qed.

Lemma getLayoutItem_elem (layout : Layout) (k : string) (a : LayoutItem) :
  getLayoutItem layout k = Some a -> a ∈ layout /\ Item.i a = k.
Proof.
  unfold getLayoutItem. intros H. apply find_some in H as [Hin Hk].
  split; [apply list_elem_of_In, Hin | apply String.eqb_eq, Hk].
Qed.

Lemma getLayoutItem_found (layout : Layout) (a : LayoutItem) :
  a ∈ layout -> is_Some (getLayoutItem layout (Item.i a)).
Proof.
  intros Ha. unfold getLayoutItem.
  destruct (List.find _ layout) as [b|] eqn:E; [eauto|].
  exfalso. apply list_elem_of_In in Ha.
  pose proof (find_none _ _ E a Ha) as Hn. simpl in Hn.
  rewrite String.eqb_refl in Hn. discriminate.
Qed.

Import Compactor.

Lemma reorder_keys (layout result : Layout) :
  map Item.i (reorder layout result) = map Item.i layout.
Proof.
  unfold reorder. rewrite map_map. apply map_ext. intros l.
  destruct (getLayoutItem result (Item.i l)) as [a|] eqn:E; simpl;
    [apply getLayoutItem_elem in E as [_ E]; exact E | reflexivity].
Qed.

(** With the same unique keys on both sides, reordering keeps exactly
    the items of the result. *)
Lemma elem_of_reorder (layout result : Layout) (a : LayoutItem) :
  NoDup (map Item.i result) ->
  (forall k, k ∈ map Item.i layout <-> k ∈ map Item.i result) ->
  a ∈ reorder layout result <-> a ∈ result.
Proof.
  intros Hnd Hkeys. unfold reorder. rewrite list_elem_of_fmap. split.
  - intros (l & -> & Hl).
    assert (Hk : Item.i l ∈ map Item.i result)
      by (apply Hkeys, list_elem_of_fmap; eauto).
    apply list_elem_of_fmap in Hk as (b & Hkb & Hb).
    destruct (getLayoutItem_found result b Hb) as [c Hc].
    rewrite <- Hkb in Hc. rewrite Hc. simpl.
    apply getLayoutItem_elem in Hc as [Hc _]. exact Hc.
  - intros Ha.
    assert (Hk : Item.i a ∈ map Item.i layout)
      by (apply Hkeys, list_elem_of_fmap; eauto).
    apply list_elem_of_fmap in Hk as (l & Hkl & Hl).
    exists l. split; [|exact Hl].
    destruct (getLayoutItem_found result a Ha) as [c Hc].
    rewrite Hkl in Hc. rewrite Hc. simpl.
    apply getLayoutItem_elem in Hc as [Hcin Hck].
    apply (key_inj result); [exact Hnd | exact Ha | exact Hcin | congruence].
Qed.

(** Reordering a layout by a rearrangement of itself gives it back. *)
Lemma reorder_id (layout result : Layout) :
  NoDup (map Item.i layout) ->
  (forall q, q ∈ result -> q ∈ layout) ->
  reorder layout result = layout.
Proof.
  intros Hnd Hsub. unfold reorder.
  rewrite <- (map_id layout) at 2. apply map_ext_in. intros l Hl.
  destruct (getLayoutItem result (Item.i l)) as [a|] eqn:E; simpl;
    [|reflexivity].
  apply getLayoutItem_elem in E as [Ha Hk].
  apply (key_inj layout); [exact Hnd | apply Hsub, Ha
                          | apply list_elem_of_In, Hl | exact Hk].
Qed.

End Keys.

Section Pass.

Import Compactor.

Variable t : CompactType.

Lemma compactPass_keys (placed sorted : Layout) :
  map Item.i (compactPass t placed sorted) = map Item.i sorted.
Proof.
  revert placed. induction sorted as [|l rest IH]; intros placed; simpl;
    [reflexivity|].
  destruct (Item.static l); simpl; rewrite IH; [reflexivity|].
  rewrite compactItem_key. reflexivity.
Qed.

(** Static items come out of the pass as they went in. *)
Lemma compactPass_statics (placed sorted : Layout) :
  List.filter Item.static (compactPass t placed sorted)
  = List.filter Item.static sorted.
Proof.
  revert placed. induction sorted as [|l rest IH]; intros placed; simpl;
    [reflexivity|].
  destruct (Item.static l) eqn:E; simpl.
  - rewrite E, IH. reflexivity.
  - rewrite compactItem_static, E. apply IH.
Qed.

Lemma packed_ext (S S' : Layout) :
  (forall q, q ∈ S <-> q ∈ S') -> packed t S -> packed t S'.
Proof.
  intros Heq Hp p Hin Hst.
  destruct (Hp p (proj2 (Heq p) Hin) Hst) as (H0 & Hfree & Hleast).
  split; [exact H0|]. split.
  - intros q Hq. apply Hfree, Heq, Hq.
  - intros v Hv. destruct (Hleast v Hv) as (q & Hq & Hc).
    exists q. split; [apply Heq, Hq | exact Hc].
Qed.

Lemma packed_statics (layout : Layout) : packed t (getStatics layout).
Proof.
  intros p Hin Hst. unfold getStatics in Hin.
  apply list_elem_of_In, filter_In in Hin as [_ Hin]. congruence.
Qed.

(** Placing one more item at its least free position keeps the placed
    items packed. *)
Lemma packed_snoc (placed : Layout) (l : LayoutItem) :
  packed t placed -> packed t (placed ++ [compactItem t placed l]).
Proof.
  intros Hp.
  destruct (compactItem_spec t placed l) as (r & Hl' & Hr0 & Hfree & Hleast).
  rewrite Hl'. rewrite collidesAny_false in Hfree.
  intros p Hin Hst. apply elem_of_app in Hin as [Hin | Hin].
  - destruct (Hp p Hin Hst) as (H0 & Hpfree & Hpleast).
    split; [exact H0|]. split.
    + intros q Hq. apply elem_of_app in Hq as [Hq | Hq]; [apply Hpfree, Hq|].
      apply list_elem_of_singleton in Hq as ->.
      rewrite collides_sym. apply Hfree, Hin.
    + intros v Hv. destruct (Hpleast v Hv) as (q & Hq & Hc).
      exists q. split; [apply elem_of_app; left; exact Hq | exact Hc].
  - apply list_elem_of_singleton in Hin as ->.
    split; [rewrite coord_setCoord; exact Hr0|]. split.
    + intros q Hq. apply elem_of_app in Hq as [Hq | Hq]; [apply Hfree, Hq|].
      apply list_elem_of_singleton in Hq as ->.
      apply collides_same_key. reflexivity.
    + intros v Hv. rewrite coord_setCoord in Hv. rewrite setCoord_setCoord.
      specialize (Hleast v Hv). apply collidesAny_true in Hleast as (q & Hq & Hc).
      exists q. split; [apply elem_of_app; left; exact Hq | exact Hc].
Qed.

(** The pass leaves the placed items, old and new, packed. *)
Lemma compactPass_packed (placed sorted : Layout) :
  packed t placed ->
  packed t (placed ++ movable (compactPass t placed sorted)).
Proof.
  revert placed. induction sorted as [|l rest IH]; intros placed Hp; simpl.
  - rewrite app_nil_r. exact Hp.
  - destruct (Item.static l) eqn:E; unfold movable; simpl.
    + rewrite E. simpl. apply IH, Hp.
    + rewrite compactItem_static, E. simpl.
      rewrite cons_middle, app_assoc. apply IH, packed_snoc, Hp.
Qed.

(** For a packed layout the pass changes nothing.  [pre] are the items
    already visited, [post] those still to visit. *)
Lemma compactPass_fixed (C pre post placed : Layout) :
  packed t C ->
  (forall q, q ∈ C <-> q ∈ pre ++ post) ->
  StronglySorted (notAfter t) post ->
  (forall q, q ∈ placed <->
             q ∈ C /\ (Item.static q = true \/ q ∈ pre)) ->
  compactPass t placed post = post.
Proof.
  intros Hp. revert pre placed.
  induction post as [|p post IH]; intros pre placed HC Hs Hplaced; simpl;
    [reflexivity|].
  apply StronglySorted_inv in Hs as [Hs Hall].
  assert (HpC : p ∈ C) by (apply HC, elem_of_app; right; left).
  assert (HC' : forall q, q ∈ C <-> q ∈ (pre ++ [p]) ++ post).
  { intros q. rewrite HC, <- app_assoc. reflexivity. }
  destruct (Item.static p) eqn:E.
  - f_equal. apply (IH (pre ++ [p])); [exact HC' | exact Hs|].
    intros q. rewrite Hplaced, elem_of_app, list_elem_of_singleton.
    split; [tauto|]. intros [Hq [Hst | [Hpre | ->]]]; tauto.
  - destruct (Hp p HpC E) as (H0 & Hfree & Hleast).
    assert (Hfix : compactItem t placed p = p).
    { apply compactItem_fixed; [exact H0 | |].
      - apply collidesAny_false. intros q Hq. apply Hfree, Hplaced, Hq.
      - intros u Hu. destruct (Hleast u Hu) as (q & Hq & Hc).
        apply collidesAny_true. exists q. split; [|exact Hc].
        assert (Hlt : coord t q < coord t p)
          by (apply (blocker_before t p q u); [exact Hc | apply Hfree, Hq | lia]).
        apply Hplaced. split; [exact Hq|].
        apply HC, elem_of_app in Hq as [Hq | Hq]; [right; exact Hq|].
        exfalso. apply elem_of_cons in Hq as [-> | Hq]; [lia|].
        rewrite Forall_forall in Hall. specialize (Hall q Hq).
        unfold Compactor.notAfter in Hall. lia. }
    rewrite Hfix. f_equal.
    apply (IH (pre ++ [p])); [exact HC' | exact Hs|].
    intros q. rewrite !elem_of_app, !list_elem_of_singleton, Hplaced.
    split; [intros [Hq | ->]; tauto|].
    intros [Hq [Hst | [Hpre | ->]]]; tauto.
Qed.

End Pass.

Section Idempotence.

Import Compactor.

Lemma compactAxis_keys (t : CompactType) (layout : Layout) :
  map Item.i (compactAxis t layout) = map Item.i layout.
Proof. destruct t; simpl; try apply reorder_keys; reflexivity. Qed.

Lemma elem_of_getStatics (layout : Layout) (q : LayoutItem) :
  q ∈ getStatics layout <-> q ∈ layout /\ Item.static q = true.
Proof.
  unfold getStatics. rewrite list_elem_of_In, filter_In, <- list_elem_of_In.
  reflexivity.
Qed.

Lemma elem_of_movable (layout : Layout) (q : LayoutItem) :
  q ∈ movable layout <-> q ∈ layout /\ Item.static q = false.
Proof.
  unfold movable. rewrite list_elem_of_In, filter_In, <- list_elem_of_In.
  rewrite negb_true_iff. reflexivity.
Qed.

(** The items of the pass over the sorted layout, as a set: the static
    items of the layout and the items the pass moved. *)
Lemma elem_of_compactPass (t : CompactType) (layout : Layout) (q : LayoutItem) :
  q ∈ compactPass t (getStatics layout) (sortLayoutItems t layout)
  <-> q ∈ getStatics layout
         ++ movable (compactPass t (getStatics layout)
                                 (sortLayoutItems t layout)).
Proof.
  set (res := compactPass t (getStatics layout) (sortLayoutItems t layout)).
  rewrite elem_of_app, elem_of_movable, elem_of_getStatics.
  assert (Hst : q ∈ res /\ Item.static q = true
                <-> q ∈ layout /\ Item.static q = true).
  { rewrite <- (elem_of_sortLayoutItems t layout q).
    rewrite <- !elem_of_getStatics. unfold getStatics, res.
    rewrite compactPass_statics. reflexivity. }
  destruct (Item.static q) eqn:E.
  - split; [intros Hq; left; apply Hst; auto|].
    intros [Hq | [_ Hq]]; [apply Hst in Hq as [Hq _]; exact Hq | discriminate].
  - split; [intros Hq; right; auto|].
    intros [[_ Hq] | [Hq _]]; [discriminate | exact Hq].
Qed.

(** Axis compaction yields a packed layout. *)
Lemma compactAxis_packed (t : CompactType) (layout : Layout) :
  t <> NoCompact ->
  NoDup (map Item.i layout) ->
  packed t (compactAxis t layout).
Proof.
  intros Ht Hnd.
  set (res := compactPass t (getStatics layout) (sortLayoutItems t layout)).
  assert (Hax : compactAxis t layout = reorder layout res)
    by (destruct t; [reflexivity | reflexivity | contradiction]).
  rewrite Hax.
  assert (Hkeys : map Item.i res ≡ₚ map Item.i layout).
  { unfold res. rewrite compactPass_keys.
    apply fmap_Permutation, sortLayoutItems_perm. }
  apply (packed_ext t (getStatics layout ++ movable res)).
  - intros q. rewrite elem_of_reorder.
    + symmetry. apply elem_of_compactPass.
    + rewrite Hkeys. exact Hnd.
    + intros k. rewrite Hkeys. reflexivity.
  - apply compactPass_packed, packed_statics.
Qed.

(** A packed layout is a fixed point of axis compaction. *)
Lemma compactAxis_fixed (t : CompactType) (layout : Layout) :
  NoDup (map Item.i layout) ->
  packed t layout ->
  compactAxis t layout = layout.
Proof.
  intros Hnd Hp.
  assert (Hpass : compactPass t (getStatics layout) (sortLayoutItems t layout)
                  = sortLayoutItems t layout).
  { apply (compactPass_fixed t layout []); [exact Hp | | |].
    - intros q. simpl. symmetry. apply elem_of_sortLayoutItems.
    - apply sortLayoutItems_sorted.
    - intros q. rewrite elem_of_getStatics. split; [tauto|].
      intros [Hq [Hst | Hnil]]; [tauto | inversion Hnil]. }
  assert (Hre : reorder layout (sortLayoutItems t layout) = layout).
  { apply reorder_id; [exact Hnd|].
    intros q Hq. apply elem_of_sortLayoutItems in Hq. exact Hq. }
  destruct t; simpl; [rewrite Hpass; exact Hre | rewrite Hpass; exact Hre
                     | reflexivity].
Qed.

(** Axis compaction alone is idempotent. *)
Lemma compactAxis_idempotent (t : CompactType) (layout : Layout) :
  NoDup (map Item.i layout) ->
  compactAxis t (compactAxis t layout) = compactAxis t layout.
Proof.
  intros Hnd. destruct (decide (t = NoCompact)) as [-> | Ht]; [reflexivity|].
  apply compactAxis_fixed.
  - rewrite compactAxis_keys. exact Hnd.
  - apply compactAxis_packed; assumption.
Qed.

(** The bound correction leaves a layout within the columns alone. *)
Lemma correctBounds_within (cols : Z) (layout : Layout) :
  withinCols cols layout -> map (correctBounds cols) layout = layout.
Proof.
  unfold withinCols. induction 1 as [|l layout Hl _ IH]; simpl;
    [reflexivity|].
  rewrite IH. f_equal. unfold correctBounds.
  destruct (cols <? Item.x l + Item.w l) eqn:E; [|reflexivity].
  apply Z.ltb_lt in E. lia.
Qed.

(** Vertical compaction keeps every [x] and [w]: its result is within
    the columns exactly when the layout is. *)
Lemma compactAxis_vertical_within (cols : Z) (layout : Layout) :
  NoDup (map Item.i layout) ->
  withinCols cols layout ->
  withinCols cols (compactAxis Vertical layout).
Proof.
  intros Hnd Hw. unfold withinCols in *. simpl. unfold reorder.
  rewrite Forall_forall in Hw. apply Forall_forall. intros q Hq.
  apply list_elem_of_fmap in Hq as (l & -> & Hl).
  destruct (getLayoutItem _ (Item.i l)) as [a|] eqn:E; simpl;
    [|apply Hw, Hl].
  apply getLayoutItem_elem in E as [Ha Hk].
  assert (Hxw : forall placed sorted b,
             b ∈ compactPass Vertical placed sorted ->
             exists c, c ∈ sorted /\ Item.i c = Item.i b
                       /\ Item.x c = Item.x b /\ Item.w c = Item.w b).
  { intros placed sorted. revert placed.
    induction sorted as [|c rest IH]; intros placed b Hb; simpl in Hb;
      [inversion Hb|].
    destruct (Item.static c).
    - apply elem_of_cons in Hb as [-> | Hb];
        [exists c; split; [left | auto] |].
      destruct (IH _ _ Hb) as (c' & Hc' & Hrest).
      exists c'. split; [right; exact Hc' | exact Hrest].
    - apply elem_of_cons in Hb as [-> | Hb];
        [exists c; split; [left | auto] |].
      destruct (IH _ _ Hb) as (c' & Hc' & Hrest).
      exists c'. split; [right; exact Hc' | exact Hrest]. }
  destruct (Hxw _ _ _ Ha) as (c & Hc & Hck & Hcx & Hcw).
  apply elem_of_sortLayoutItems in Hc.
  rewrite <- Hcx, <- Hcw. apply Hw, Hc.
Qed.

(** C3 as it holds of the compactor.  For a layout with unique keys,
    compaction is idempotent whenever the bound correction of the first
    compaction had nothing to correct, that is, whenever the items lie
    within the columns after the axis compaction. *)
Theorem compact_idempotent_within_cols (layout : Layout) (t : CompactType)
        (cols : Z) :
  NoDup (map Item.i layout) ->
  withinCols cols (compactAxis t layout) ->
  compact (compact layout t cols) t cols = compact layout t cols.
Proof.
  intros Hnd Hw. unfold compact.
  rewrite (correctBounds_within cols _ Hw).
  rewrite (compactAxis_idempotent t layout Hnd).
  apply correctBounds_within, Hw.
Qed.

End Idempotence.

(** Scenario A: the two overlapping items are stacked, and compacting
    the result again changes nothing. *)
Lemma compact_idempotent_scenario_A :
  compact scenario_A Vertical 12
  = [Item.plain "a" 0 0 6 2; Item.plain "b" 0 2 6 2]
  /\ compact (compact scenario_A Vertical 12) Vertical 12
     = compact scenario_A Vertical 12.
Proof.
  split; [vm_compute; reflexivity|].
  apply (compact_idempotent_within_cols scenario_A Vertical 12).
  - apply (bool_decide_unpack _). vm_compute. exact I.
  - apply (bool_decide_unpack _). vm_compute. exact I.
Defined.

(** Compaction is not idempotent on every layout.  The three items of
    [crowded] lie within six columns; horizontal compaction pushes [c]
    beyond them, the bound correction puts it back over [a] and [b],
    and the second compaction moves [b]. *)
Lemma compact_not_idempotent :
  NoDup (map Item.i crowded)
  /\ Compactor.withinCols 6 crowded
  /\ (fun l => (Item.i l, Item.x l, Item.y l)) <$> compact crowded Horizontal 6
     = [("a", 0, 0); ("b", 4, 1); ("c", 3, 0)]
  /\ compact (compact crowded Horizontal 6) Horizontal 6
     <> compact crowded Horizontal 6.
Proof.
  split; [apply (bool_decide_unpack _); vm_compute; exact I|].
  split; [apply (bool_decide_unpack _); vm_compute; exact I|].
  split; [vm_compute; reflexivity|].
  vm_compute. discriminate.
Qed.

(* ================================================================== *)
(** * Further properties of the sources *)

(* ------------------------------------------------------------------ *)
(** ** Rounding *)

Section Rounding.

Import GridItem.

(** [Math.round] is within a half of its argument. *)
Lemma round_bounds (q : Q) :
  (q - (1 # 2) < inject_Z (round q) /\ inject_Z (round q) <= q + (1 # 2))%Q.
Proof.
  unfold round. split.
  - pose proof (Qlt_floor (q + (1 # 2))) as H.
    rewrite inject_Z_plus in H. change (inject_Z 1) with 1%Q in H. lra.
  - apply Qfloor_le.
Qed.

(** A value within a half of an integer, the upper half excluded,
    rounds to it. *)
Lemma round_near (q : Q) (z : Z) :
  (inject_Z z - (1 # 2) <= q)%Q -> (q < inject_Z z + (1 # 2))%Q ->
  round q = z.
Proof.
  intros Hlo Hhi. destruct (round_bounds q) as [H1 H2].
  assert (Hz1 : (inject_Z (round q) < inject_Z (z + 1))%Q)
    by (rewrite inject_Z_plus; change (inject_Z 1) with 1%Q; lra).
  assert (Hz2 : (inject_Z (z + -1) < inject_Z (round q))%Q)
    by (rewrite inject_Z_plus; change (inject_Z (-1)) with (-1)%Q; lra).
  rewrite <- Zlt_Qlt in Hz1, Hz2. lia.
Qed.

Lemma round_mono (a b : Q) : (a <= b)%Q -> round a <= round b.
Proof. intros H. unfold round. apply Qfloor_resp_le. lra. Qed.

End Rounding.

(* ------------------------------------------------------------------ *)
(** ** Pixels to grid cells *)

Section PixelsAndGrid.

Import GridItemDrag.

Variable p : Props.


End PixelsAndGrid.


(* ------------------------------------------------------------------ *)
(** ** The drag handler of a grid item *)

Section DragHandler.

Import GridItemDrag.

Variable p : Props.

Lemma gt_true (a b : Q) : gt a b = true <-> (b < a)%Q.
Proof.
  unfold gt. rewrite negb_true_iff, <- not_true_iff_false, Qle_bool_iff.
  split; [apply Qnot_le_lt | apply Qlt_not_le].
Qed.

Lemma gt_false (a b : Q) : gt a b = false <-> (a <= b)%Q.
Proof. unfold gt. rewrite negb_false_iff. apply Qle_bool_iff. Qed.

(** X5.  While no drag is in progress the handler accepts nothing but
    [onDragStart]: a drag move, a drag stop and any other event name
    throw, and no handler is called. *)
Theorem onDragHandler_before_start (node : Node) (deltaX deltaY : Q)
        (name : string) :
  name ∈ GridItem.handlers (base p) ->
  name <> "onDragStart" ->
  exists msg : string,
    onDragHandler p None node deltaX deltaY name = Thrown msg.
Proof.
  intros Hin Hne. unfold onDragHandler.
  rewrite bool_decide_eq_true_2 by exact Hin. simpl.
  apply String.eqb_neq in Hne. rewrite Hne.
  destruct (String.eqb name "onDrag"); [eauto|].
  destruct (String.eqb name "onDragStop"); eauto.
Qed.

(** An event whose handler prop is not set changes nothing and calls
    nothing, whatever the state and the event name. *)
Lemma onDragHandler_no_handler (dragging : option Point) (node : Node)
      (deltaX deltaY : Q) (name : string) :
  name ∉ GridItem.handlers (base p) ->
  onDragHandler p dragging node deltaX deltaY name = Returned (dragging, None).
Proof.
  intros H. unfold onDragHandler.
  rewrite bool_decide_eq_false_2 by exact H. reflexivity.
Qed.

Lemma boundPosition_bounds (op : OffsetParent) (top0 left0 : Q) :
  let bottomBoundary := (clientHeight op - inject_Z (calcHeight p (h p)))%Q in
  let rightBoundary :=
    (GridItem.containerWidth (base p)
     - inject_Z (calcWidth p (w p) (GridItem.calcColWidth (base p))))%Q in
  (0 <= bottomBoundary)%Q -> (0 <= rightBoundary)%Q ->
  (0 <= fst (boundPosition p op top0 left0) <= bottomBoundary)%Q
  /\ (0 <= snd (boundPosition p op top0 left0) <= rightBoundary)%Q.
Proof.
  intros bb rb Hbb Hrb. unfold boundPosition. fold bb. fold rb. cbv zeta.
  simpl fst. simpl snd. split.
  - destruct (gt top0 bb) eqn:E1.
    + destruct (gt 0 bb) eqn:E2; [apply gt_true in E2 | apply gt_false in E2];
        lra.
    + apply gt_false in E1.
      destruct (gt 0 top0) eqn:E2; [apply gt_true in E2 | apply gt_false in E2];
        lra.
  - destruct (gt left0 rb) eqn:E1.
    + destruct (gt 0 rb) eqn:E2; [apply gt_true in E2 | apply gt_false in E2];
        lra.
    + apply gt_false in E1.
      destruct (gt 0 left0) eqn:E2; [apply gt_true in E2 | apply gt_false in E2];
        lra.
Qed.

(** X6.  A bounded drag keeps the item inside its container: with
    [isBounded], an offset parent, and an item that fits the container,
    the position the move stores and reports lies between the
    container's top left corner and the corner at which the item's
    far edges meet the container's. *)
Theorem onDragHandler_bounded (d : Point) (node : Node) (op : OffsetParent)
        (deltaX deltaY : Q) :
  "onDrag" ∈ GridItem.handlers (base p) ->
  isBounded p = true ->
  offsetParent node = Some op ->
  let bottomBoundary := (clientHeight op - inject_Z (calcHeight p (h p)))%Q in
  let rightBoundary :=
    (GridItem.containerWidth (base p)
     - inject_Z (calcWidth p (w p) (GridItem.calcColWidth (base p))))%Q in
  (0 <= bottomBoundary)%Q -> (0 <= rightBoundary)%Q ->
  exists (pos : Point) (c : DragCall),
    onDragHandler p (Some d) node deltaX deltaY "onDrag"
    = Returned (Some pos, Some c)
    /\ newPosition c = pos
    /\ (0 <= ptop pos <= bottomBoundary)%Q
    /\ (0 <= pleft pos <= rightBoundary)%Q.
Proof.
  intros Hin Hb Hop bb rb Hbb Hrb. unfold onDragHandler.
  rewrite bool_decide_eq_true_2 by exact Hin.
  cbn -[boundPosition calcXY]. rewrite Hb, Hop.
  destruct (boundPosition_bounds op (ptop d + deltaY) (pleft d + deltaX)
                                 Hbb Hrb) as [Ht Hl].
  destruct (boundPosition p op (ptop d + deltaY) (pleft d + deltaX))
    as [top1 left1].
  cbn [fst snd] in Ht, Hl. cbn -[calcXY].
  eexists _, _. split; [reflexivity|].
  split; [destruct (calcXY p _ _); reflexivity|].
  split; assumption.
Qed.

(** An unbounded move adds the deltas to the position of the drag. *)
Lemma onDragHandler_unbounded (d : Point) (node : Node) (deltaX deltaY : Q) :
  "onDrag" ∈ GridItem.handlers (base p) ->
  isBounded p = false ->
  fst <$> (match onDragHandler p (Some d) node deltaX deltaY "onDrag" with
           | Returned r => Some r
           | Thrown _ => None
           end)
  = Some (Some (mkPoint (ptop d + deltaY) (pleft d + deltaX))).
Proof.
  intros Hin Hb. unfold onDragHandler.
  rewrite bool_decide_eq_true_2 by exact Hin. simpl. rewrite Hb. reflexivity.
Qed.

(** X7.  The stop of a drag reports the cell of the last event before
    it: after a drag start or move that called its handler with cell
    [(x, y)], the drag state is the position that call carried, and
    [onDragStop] reports the same position and the same cell, whatever
    deltas and node it is given, and clears the drag state. *)
Theorem onDragStop_repeats_last_cell (dragging st' : option Point)
        (node node' : Node) (deltaX deltaY deltaX' deltaY' : Q)
        (name : string) (c : DragCall) :
  name = "onDragStart" \/ name = "onDrag" ->
  "onDragStop" ∈ GridItem.handlers (base p) ->
  onDragHandler p dragging node deltaX deltaY name = Returned (st', Some c) ->
  st' = Some (newPosition c)
  /\ exists c' : DragCall,
      onDragHandler p st' node' deltaX' deltaY' "onDragStop"
      = Returned (None, Some c')
      /\ newPosition c' = newPosition c
      /\ gridX c' = gridX c /\ gridY c' = gridY c.
Proof.
  intros Hname Hstop Hrun.
  assert (Hst : st' = Some (newPosition c)
                /\ (gridX c, gridY c)
                   = calcXY p (ptop (newPosition c)) (pleft (newPosition c))).
  { unfold onDragHandler in Hrun.
    destruct (negb (bool_decide (name ∈ GridItem.handlers (base p))));
      [discriminate|].
    destruct Hname as [-> | ->]; cbn -[calcXY boundPosition] in Hrun.
    - destruct (offsetParent node) as [op|]; [|discriminate].
      destruct (calcXY p _ _) as [x0 y0] eqn:E.
      injection Hrun as <- <-. cbn -[calcXY].
      split; [reflexivity|]. symmetry. exact E.
    - destruct dragging as [d|]; [|discriminate].
      destruct (match isBounded p, offsetParent node with
                | true, Some op => _
                | _, _ => _
                end) as [top1 left1].
      destruct (calcXY p _ _) as [x0 y0] eqn:E.
      injection Hrun as <- <-. cbn -[calcXY].
      split; [reflexivity|]. symmetry. exact E. }
  destruct Hst as [-> Hcell]. split; [reflexivity|].
  unfold onDragHandler. rewrite bool_decide_eq_true_2 by exact Hstop.
  cbn -[calcXY].
  eexists. split; [reflexivity|].
  rewrite <- Hcell. cbn. auto.
Qed.

End DragHandler.

Lemma onDragHandler_before_start_witness :
  exists msg : string,
    GridItemDrag.onDragHandler drag_props None drag_node 5%Q 5%Q "onDrag"
    = Thrown msg.
Proof.
  apply (onDragHandler_before_start drag_props drag_node 5%Q 5%Q "onDrag").
  - apply (bool_decide_unpack _). vm_compute. exact I.
  - discriminate.
Defined.

Lemma onDragHandler_bounded_witness :
  exists (pos : GridItemDrag.Point) (c : GridItemDrag.DragCall),
    GridItemDrag.onDragHandler drag_props
      (Some (GridItemDrag.mkPoint 30%Q 30%Q)) drag_node 5000%Q (-400)%Q "onDrag"
    = Returned (Some pos, Some c)
    /\ (0 <= GridItemDrag.ptop pos)%Q
    /\ (GridItemDrag.pleft pos <= 1200)%Q.
Proof.
  destruct (onDragHandler_bounded drag_props (GridItemDrag.mkPoint 30%Q 30%Q)
              drag_node
              (GridItemDrag.mkOffsetParent (GridItemDrag.mkPoint 0%Q 0%Q)
                                           0%Q 0%Q 600%Q)
              5000%Q (-400)%Q)
    as (pos & c & Hrun & _ & [Ht _] & [_ Hl]).
  - apply (bool_decide_unpack _). vm_compute. exact I.
  - reflexivity.
  - reflexivity.
  - vm_compute. discriminate.
  - vm_compute. discriminate.
  - exists pos, c. split; [exact Hrun|]. split; [exact Ht|].
    eapply Qle_trans; [exact Hl|]. vm_compute. discriminate.
Defined.

Lemma onDragStop_repeats_last_cell_witness :
  exists (st' : option GridItemDrag.Point) (c c' : GridItemDrag.DragCall),
    GridItemDrag.onDragHandler drag_props
      (Some (GridItemDrag.mkPoint 30%Q 30%Q)) drag_node 250%Q 170%Q "onDrag"
    = Returned (st', Some c)
    /\ GridItemDrag.onDragHandler drag_props st' drag_node 0%Q 0%Q "onDragStop"
       = Returned (None, Some c')
    /\ GridItemDrag.gridX c' = GridItemDrag.gridX c
    /\ GridItemDrag.gridY c' = GridItemDrag.gridY c.
Proof.
  destruct (GridItemDrag.onDragHandler drag_props
              (Some (GridItemDrag.mkPoint 30%Q 30%Q)) drag_node 250%Q 170%Q
              "onDrag") as [[st' [c|]]|msg] eqn:Hrun;
    try (vm_compute in Hrun; discriminate Hrun).
  destruct (onDragStop_repeats_last_cell drag_props
              (Some (GridItemDrag.mkPoint 30%Q 30%Q)) st' drag_node drag_node
              250%Q 170%Q 0%Q 0%Q "onDrag" c) as (_ & c' & Hstop & _ & Hx & Hy).
  - right; reflexivity.
  - apply (bool_decide_unpack _). vm_compute. exact I.
  - exact Hrun.
  - exists st', c, c'. auto.
Defined.

(* ------------------------------------------------------------------ *)
(** ** The constraints of the resize widget *)

Section ResizeConstraints.

Import GridItemDrag.

Variable p : Props.

Lemma inject_Z_max_pred_mono (a b : Z) :
  a <= b -> (inject_Z (Z.max 0 (a - 1)) <= inject_Z (Z.max 0 (b - 1)))%Q.
Proof. intros H. rewrite <- Zle_Qle. lia. Qed.

Lemma inject_Z_max_pred_nonneg (a : Z) : (0 <= inject_Z (Z.max 0 (a - 1)))%Q.
Proof. change 0%Q with (inject_Z 0). rewrite <- Zle_Qle. lia. Qed.

(** More columns never make fewer pixels. *)
Lemma calcWidth_mono (colWidth : Q) (a b : Z) :
  (0 <= colWidth)%Q -> (0 <= fst (GridItem.margin (base p)))%Q ->
  a <= b -> calcWidth p a colWidth <= calcWidth p b colWidth.
Proof.
  intros Hc Hm Hab. unfold calcWidth. apply round_mono.
  pose proof (inject_Z_max_pred_mono a b Hab).
  assert ((inject_Z a <= inject_Z b)%Q) by (rewrite <- Zle_Qle; exact Hab).
  nra.
Qed.

Lemma calcHeight_mono (a b : Z) :
  (0 <= GridItem.rowHeight (base p))%Q ->
  (0 <= snd (GridItem.margin (base p)))%Q ->
  a <= b -> calcHeight p a <= calcHeight p b.
Proof.
  intros Hc Hm Hab. unfold calcHeight. apply round_mono.
  pose proof (inject_Z_max_pred_mono a b Hab).
  assert ((inject_Z a <= inject_Z b)%Q) by (rewrite <- Zle_Qle; exact Hab).
  nra.
Qed.

(** X8.  The constraints handed to the resize widget are consistent:
    with non-negative cell sizes, [minW <= maxW], [minH <= maxH] and a
    minimum width that fits between the item's column and the right
    edge of the grid, the minimum size is not above the maximum size;
    and the maximum width is always finite, at most the pixel width of
    the columns from the item's column to the right edge, even when
    [maxW] is [Infinity]. *)
Theorem constraints_consistent :
  (0 <= GridItem.calcColWidth (base p))%Q ->
  (0 <= fst (GridItem.margin (base p)))%Q ->
  (0 <= GridItem.rowHeight (base p))%Q ->
  (0 <= snd (GridItem.margin (base p)))%Q ->
  GridItem.minW (base p) <= GridItem.cols (base p) - GridItem.x (base p) ->
  Num.le (GridItem.minW (base p)) (GridItem.maxW (base p)) ->
  Num.le (GridItem.minH (base p)) (GridItem.maxH (base p)) ->
  let '((minWidth, minHeight), (maxWidth, maxHeight)) := constraints p in
  NumOrd.le minWidth maxWidth
  /\ NumOrd.le minHeight maxHeight
  /\ exists m : Z,
      maxWidth = Fin m
      /\ m <= calcWidth p (GridItem.cols (base p) - GridItem.x (base p))
                        (GridItem.calcColWidth (base p)).
Proof.
  intros Hc Hm Hr Hm1 Hfit Hw Hh. unfold constraints, calcPosition.
  cbn -[calcWidth calcHeight].
  pose proof (calcWidth_mono _ _ _ Hc Hm Hfit) as Hfit'.
  split; [|split].
  - destruct (GridItem.maxW (base p)) as [mw|]; simpl in *.
    + pose proof (calcWidth_mono _ _ _ Hc Hm Hw). lia.
    + exact Hfit'.
  - destruct (GridItem.maxH (base p)) as [mh|]; simpl in *.
    + apply calcHeight_mono; assumption.
    + exact I.
  - destruct (GridItem.maxW (base p)) as [mw|]; simpl.
    + eexists. split; [reflexivity | lia].
    + eexists. split; [reflexivity | lia].
Qed.

End ResizeConstraints.

Lemma constraints_consistent_witness :
  let '((minWidth, minHeight), (maxWidth, maxHeight)) :=
    GridItemDrag.constraints drag_props in
  minWidth = Fin 89 /\ maxWidth = Fin 982
  /\ minHeight = Fin 150 /\ maxHeight = Infinity.
Proof.
  pose proof (constraints_consistent drag_props) as H.
  destruct (GridItemDrag.constraints drag_props)
    as [[minWidth minHeight] [maxWidth maxHeight]] eqn:E.
  destruct H as (_ & _ & m & Hm & _);
    try (vm_compute; discriminate); try exact I; try (simpl; lia).
  vm_compute in E. injection E as <- <- <- <-. repeat split.
Defined.

(* ------------------------------------------------------------------ *)
(** ** The resized item stays within the grid *)

Section ResizeWithinGrid.

Import JSNumber GridItemResize.

(** X14.  A resize never takes the item beyond the grid.  When at
    least one column and the minimum width fit between the item's
    column and the right edge, the width delivered to the resize
    handler is an integer between [minW] and [cols - x]; when the
    minimum height fits between the item's row and [maxRows], the
    height delivered lies between [minH] and [maxRows - y].  Each of
    the two holds on its own, whatever the pixel size, unless the
    rounded quotient of that axis is [NaN]. *)
Theorem onResizeHandler_within_grid (p : Props) (r : option Size) (s : Size)
        (name : string) :
  name ∈ handlers p ->
  let colWidth :=
    ((containerWidth p - fst (margin p) * ofZ (cols p - 1)
      - fst (containerPadding p) * 2) / ofZ (cols p))%float in
  let roundedW :=
    round ((width s + fst (margin p)) / (colWidth + fst (margin p)))%float in
  let roundedH :=
    round ((height s + snd (margin p))
           / (rowHeight p + snd (margin p)))%float in
  exists c : ResizeCall,
    snd (onResizeHandler p r s name) = Some c
    /\ (1 <= cols p - x p -> minW p <= cols p - x p -> roundedW <> NaN ->
        exists w : Z,
          gridW c = Integral w /\ minW p <= w /\ x p + w <= cols p)
    /\ (Num.le (y p + Z.max 0 (minH p)) (maxRows p) -> roundedH <> NaN ->
        within (minH p) (Num.sub (maxRows p) (y p)) (gridH c)).
Proof.
  intros Hin colWidth roundedW roundedH. unfold onResizeHandler.
  rewrite bool_decide_eq_true_2 by exact Hin. simpl.
  unfold calcWH, calcColWidth. fold colWidth. fold roundedW. fold roundedH.
  eexists. split; [reflexivity|]. simpl. split.
  - intros Hone Hmin Hnan.
    destruct roundedW as [z| | |]; [| | |contradiction];
      destruct (maxW p) as [m|]; simpl; eexists; (split; [reflexivity | lia]).
  - intros Hrows Hnan.
    destruct roundedH as [z| | |]; [| | |contradiction];
      destruct (maxRows p) as [mr|], (maxH p) as [mh|]; simpl in *;
      try reflexivity; try lia; try (split; [lia | exact I]).
Qed.

End ResizeWithinGrid.

Lemma onResizeHandler_within_grid_witness :
  exists (c : GridItemResize.ResizeCall) (w : Z),
    snd (GridItemResize.onResizeHandler bounded_resize_props None
                                        bounded_resize_size "onResize")
    = Some c
    /\ GridItemResize.gridW c = JSNumber.Integral w
    /\ w = 8 /\ 2 + w <= 12
    /\ JSNumber.within 1 Infinity (GridItemResize.gridH c).
Proof.
  destruct (onResizeHandler_within_grid bounded_resize_props None
              bounded_resize_size "onResize")
    as (c & Hc & Hw & Hh).
  - apply (bool_decide_unpack _). vm_compute. exact I.
  - destruct Hw as (w & Hgw & _ & Hfit);
      [simpl; lia | simpl; lia | vm_compute; discriminate |].
    exists c, w. split; [exact Hc|]. split; [exact Hgw|].
    split; [|split; [exact Hfit|]].
    + vm_compute in Hc. injection Hc as <-. simpl in Hgw.
      injection Hgw as <-. reflexivity.
    + apply Hh; [exact I | vm_compute; discriminate].
Defined.

(* ------------------------------------------------------------------ *)
(** ** What a resize move writes *)

Section ResizeWrites.

Import RGL.

Lemma resizeItem_sameButSize (pc : bool) (layout : Layout) (l : LayoutItem)
      (w h : Z) :
  sameButSize l (resizeItem pc layout l w h).
Proof.
  unfold resizeItem, sameButSize.
  destruct (negb (length (if pc then _ else _) =? 0)%nat); simpl.
  - destruct (leastXY l _) as [[mx|] [my|]]; simpl; repeat split.
  - repeat split.
Qed.

Lemma resizeItem_accepted (pc : bool) (layout : Layout) (l : LayoutItem)
      (w h : Z) :
  pc = false \/ resizeCollisions layout l w h = [] ->
  resizeItem pc layout l w h
  = Item.setPersistentH (Item.setPersistentW (Item.setH (Item.setW l w) h) w) h.
Proof.
  intros H. unfold resizeItem.
  replace (if pc then resizeCollisions layout l w h else []) with (@nil LayoutItem)
    by (destruct H as [-> | ->]; [reflexivity | destruct pc; reflexivity]).
  reflexivity.
Qed.

(** X9.  A resize move that is not stopped by a collision (collisions
    are not prevented, or the resized rectangle collides with nothing)
    gives the item the requested size and remembers it as the
    persistent size: the layout object reads [w], [h],
    [persistentW = w], [persistentH = h], and [onResize] and the
    placeholder carry that size at the item's place. *)
Theorem handleResize_accepts (p : Props) (st : State) (i : string) (w h : Z)
        (a : Store.loc) :
  Store.getLayoutItem (store st) (layoutState st) i = Some a ->
  (a < length (store st))%nat ->
  preventCollision p = false
  \/ resizeCollisions (Store.readLayout (store st) (layoutState st))
                      (Store.get (store st) a) w h = [] ->
  let l := Store.get (store st) a in
  let l' := Store.get (store (fst (handleResize p st i w h))) a in
  Item.w l' = w /\ Item.h l' = h
  /\ Item.persistentW l' = Some w /\ Item.persistentH l' = Some h
  /\ exists layout' : Layout,
      snd (handleResize p st i w h)
      = [onResize layout' (oldResizeItem st) (Some l')
                  (Some (Placeholder.mk w h (Item.x l) (Item.y l)
                                        false true i))]
      /\ activeDrag (fst (handleResize p st i w h))
         = Some (Placeholder.mk w h (Item.x l) (Item.y l) false true i).
Proof.
  intros Hfind Ha Hfree l l'. subst l'.
  unfold handleResize. rewrite Hfind.
  rewrite (resizeItem_accepted _ _ _ w h Hfree). fold l.
  rewrite (get_set_eq _ _ _ Ha).
  destruct (Store.compact _ _ _ _) as [hp2 compacted] eqn:Ecompact.
  unfold Store.compact, Store.alloc in Ecompact. injection Ecompact as <- <-.
  cbn [fst snd store activeDrag].
  rewrite get_app_l by (unfold Store.set; rewrite length_insert; exact Ha).
  rewrite (get_set_eq _ _ _ Ha).
  repeat split. eexists. split; reflexivity.
Qed.

(** X10.  A resize move writes to one object only, and to its size
    only: every other item object of the store reads as before, the
    resized item keeps its key, position, bounds, [static] and
    override flags, and the item snapshots [oldDragItem] and
    [oldResizeItem], which are clones, are as they were. *)
Theorem handleResize_frame (p : Props) (st : State) (i : string) (w h : Z)
        (a : Store.loc) :
  Store.getLayoutItem (store st) (layoutState st) i = Some a ->
  (a < length (store st))%nat ->
  let st' := fst (handleResize p st i w h) in
  sameButSize (Store.get (store st) a) (Store.get (store st') a)
  /\ (forall b : Store.loc,
         b <> a -> (b < length (store st))%nat ->
         Store.get (store st') b = Store.get (store st) b)
  /\ oldDragItem st' = oldDragItem st
  /\ oldResizeItem st' = oldResizeItem st.
Proof.
  intros Hfind Ha st'. subst st'.
  unfold handleResize. rewrite Hfind.
  destruct (Store.compact _ _ _ _) as [hp2 compacted] eqn:Ecompact.
  unfold Store.compact, Store.alloc in Ecompact. injection Ecompact as <- <-.
  cbn [fst store oldDragItem oldResizeItem].
  split; [|split; [|auto]].
  - rewrite get_app_l by (unfold Store.set; rewrite length_insert; exact Ha).
    rewrite (get_set_eq _ _ _ Ha). apply resizeItem_sameButSize.
  - intros b Hb Hlt.
    rewrite get_app_l by (unfold Store.set; rewrite length_insert; exact Hlt).
    apply get_set_ne. congruence.
Qed.

End ResizeWrites.

Lemma handleResize_accepts_witness :
  let l' := Store.get (RGL.store (fst (RGL.handleResize scenario_D_props
                                         scenario_D "a" 3 5))) 0%nat in
  Item.w l' = 3 /\ Item.h l' = 5 /\ Item.persistentW l' = Some 3.
Proof.
  destruct (handleResize_accepts scenario_D_props scenario_D "a" 3 5 0%nat)
    as (Hw & Hh & Hpw & _).
  - reflexivity.
  - simpl; lia.
  - right. vm_compute. reflexivity.
  - auto.
Defined.

Lemma handleResize_frame_witness :
  Store.get (RGL.store (fst (RGL.handleResize scenario_D_props scenario_D
                                              "a" 5 2))) 1%nat
  = Item.fixed "b" 4 0 2 2.
Proof.
  destruct (handleResize_frame scenario_D_props scenario_D "a" 5 2 0%nat)
    as (_ & Hother & _).
  - reflexivity.
  - simpl; lia.
  - rewrite (Hother 1%nat); [reflexivity | discriminate | simpl; lia].
Defined.

(* ------------------------------------------------------------------ *)
(** ** The life cycle of the responsive wrapper *)

Section Lifecycle.

Import Responsive ResponsiveLifecycle.

Context {Children : Type}.
Variable findOrGenerateResponsiveLayout :
  gmap string Layout -> gmap string Z -> string -> string -> Z ->
  CompactType -> Layout.
Variable synchronizeLayoutWithChildren :
  Layout -> Children -> Z -> CompactType -> Layout.

Local Abbreviation Props := (@Responsive.Props Children).
Local Abbreviation onWidthChange :=
  (Responsive.onWidthChange findOrGenerateResponsiveLayout
                            synchronizeLayoutWithChildren).
Local Abbreviation componentDidUpdate :=
  (ResponsiveLifecycle.componentDidUpdate findOrGenerateResponsiveLayout
                                          synchronizeLayoutWithChildren).
Local Abbreviation getDerivedStateFromProps :=
  (ResponsiveLifecycle.getDerivedStateFromProps findOrGenerateResponsiveLayout).
Local Abbreviation generateInitialState :=
  (ResponsiveLifecycle.generateInitialState findOrGenerateResponsiveLayout).

Lemma sameObject_refl (c : Config) : sameObject c c = true.
Proof. unfold sameObject. apply Nat.eqb_refl. Qed.

(** What [onWidthChange] returns, in its two cases. *)
Lemma onWidthChange_cases (thisProps nextProps : Props) (st : State)
      (objs objs' : Objects) (st' : State) (calls : list Call) :
  onWidthChange thisProps nextProps st objs = Some (objs', st', calls) ->
  exists newBreakpoint newCols,
    resolveBreakpoint nextProps = Some newBreakpoint
    /\ getColsFromBreakpoint newBreakpoint (props (cols nextProps))
       = Some newCols
    /\ ((objs' = objs /\ st' = st
         /\ calls = [props_onWidthChange (width nextProps) newCols]
         /\ stBreakpoint st = newBreakpoint
         /\ sameObject (breakpoints thisProps) (breakpoints nextProps) = true
         /\ sameObject (cols thisProps) (cols nextProps) = true)
        \/ (stBreakpoint st' = newBreakpoint /\ stCols st' = newCols
            /\ exists lay o,
                calls = [props_onBreakpointChange newBreakpoint newCols;
                         props_onLayoutChange lay o;
                         props_onWidthChange (width nextProps) newCols]
                /\ layout st' = lay)).
Proof.
  unfold Responsive.onWidthChange. intros Hrun.
  destruct (resolveBreakpoint nextProps) as [newBreakpoint|] eqn:Hbp;
    [|discriminate].
  destruct (getColsFromBreakpoint newBreakpoint (props (cols nextProps)))
    as [newCols|] eqn:Hcols; [|discriminate].
  exists newBreakpoint, newCols. split; [reflexivity|]. split; [exact Hcols|].
  destruct (negb (String.eqb (stBreakpoint st) newBreakpoint)
            || negb (sameObject (breakpoints thisProps) (breakpoints nextProps))
            || negb (sameObject (cols thisProps) (cols nextProps))) eqn:Hchg.
  - right. destruct (spread objs (layouts nextProps)) as [objs1 o].
    injection Hrun as <- <- <-. simpl. repeat split. eauto.
  - left. injection Hrun as <- <- <-.
    apply orb_false_elim in Hchg as [Hchg H3].
    apply orb_false_elim in Hchg as [H1 H2].
    apply negb_false_iff in H1, H2, H3. apply String.eqb_eq in H1.
    repeat split; assumption.
Qed.

(** X11.  As [componentDidUpdate] calls it, with the current props on
    both sides, [onWidthChange] changes the state only when the name of
    the breakpoint changes.  If the props changed in another way (a new
    [cols] or [breakpoints] map, say) and the breakpoint resolved from
    them is the one in state, the state, its number of columns
    included, and the store are left as they were, and neither
    [onBreakpointChange] nor [onLayoutChange] is called. *)
Theorem componentDidUpdate_same_breakpoint (thisProps prevProps : Props)
        (st : State) (objs objs' : Objects) (st' : State) (calls : list Call) :
  componentDidUpdate thisProps prevProps st objs = Some (objs', st', calls) ->
  resolveBreakpoint thisProps = Some (stBreakpoint st) ->
  st' = st /\ objs' = objs
  /\ forall c, c ∈ calls -> exists wd nc, c = props_onWidthChange wd nc.
Proof.
  unfold ResponsiveLifecycle.componentDidUpdate. intros Hrun Hbp.
  destruct (_ || _ || _ || _).
  - unfold Responsive.onWidthChange in Hrun. rewrite Hbp in Hrun.
    destruct (getColsFromBreakpoint _ _) as [newCols|]; [|discriminate].
    rewrite String.eqb_refl, !sameObject_refl in Hrun. simpl in Hrun.
    injection Hrun as <- <- <-. split; [reflexivity|]. split; [reflexivity|].
    intros c Hc. apply list_elem_of_singleton in Hc as ->. eauto.
  - injection Hrun as <- <- <-. split; [reflexivity|]. split; [reflexivity|].
    intros c Hc. inversion Hc.
Qed.

(** X13.  After [onWidthChange] has returned, the breakpoint in state
    is the one resolved from the next props; whenever the breakpoint
    name changed, and whenever the state agreed with the next props on
    the number of columns before, it agrees with them after. *)
Theorem onWidthChange_tracks_breakpoint (thisProps nextProps : Props)
        (st : State) (objs objs' : Objects) (st' : State) (calls : list Call) :
  onWidthChange thisProps nextProps st objs = Some (objs', st', calls) ->
  resolveBreakpoint nextProps = Some (stBreakpoint st')
  /\ (stBreakpoint st' <> stBreakpoint st ->
      consistent (props (cols nextProps)) st')
  /\ (consistent (props (cols nextProps)) st ->
      consistent (props (cols nextProps)) st').
Proof.
  intros Hrun.
  destruct (onWidthChange_cases _ _ _ _ _ _ _ Hrun)
    as (nb & nc & Hbp & Hcols & [Hsame | Hchg]).
  - destruct Hsame as (_ & -> & _ & <- & _).
    split; [exact Hbp|]. split; [congruence | auto].
  - destruct Hchg as (<- & <- & _).
    split; [exact Hbp|]. unfold consistent. auto.
Qed.

(** The initial state holds the breakpoint resolved from the width and
    agrees with the props on its number of columns. *)
Lemma generateInitialState_consistent (p : Props) (verticalCompact : bool)
        (objs : Objects) (st : State) :
  generateInitialState p verticalCompact objs = Some st ->
  getBreakpointFromWidth (props (breakpoints p)) (width p)
  = Some (stBreakpoint st)
  /\ consistent (props (cols p)) st.
Proof.
  unfold ResponsiveLifecycle.generateInitialState, consistent. intros H.
  destruct (getBreakpointFromWidth _ _) as [bp|]; [|discriminate].
  destruct (getColsFromBreakpoint bp _) as [colNo|] eqn:E; [|discriminate].
  injection H as <-. simpl. auto.
Qed.

(** X12.  Once [getDerivedStateFromProps] has adopted the [layouts]
    prop it reports no further change while the prop stays the same
    object, whatever that object holds by then: it keeps the breakpoint
    and the number of columns, stores the reference, and returns [null]
    on every later call with the same reference, in any store. *)
Theorem getDerivedStateFromProps_adopts (nextProps : Props) (objs : Objects)
        (prev next : FullState) :
  getDerivedStateFromProps nextProps objs prev = Some next ->
  stBreakpoint (core next) = stBreakpoint (core prev)
  /\ stCols (core next) = stCols (core prev)
  /\ stLayouts next = Some (layouts nextProps)
  /\ forall (later : Props) (objs' : Objects),
      layouts later = layouts nextProps ->
      getDerivedStateFromProps later objs' next = None.
Proof.
  unfold ResponsiveLifecycle.getDerivedStateFromProps. intros H.
  destruct (negb (layoutsEqual objs _ _)); [|discriminate].
  injection H as <-. simpl. repeat split.
  intros later objs' ->. unfold layoutsEqual.
  rewrite bool_decide_eq_true_2 by reflexivity. reflexivity.
Qed.

End Lifecycle.

Section LayoutsValidator.

Import ResponsiveLifecycle.

Variable validateLayout : Layout -> string -> option string.

Lemma validate_fold (breakpoints : gmap string Z)
      (kvs : list (string * Layout)) :
  foldr
    (fun kv rest =>
       if negb (Responsive.inObject (fst kv) breakpoints) then
         Some "Each key in layouts must align with a key in breakpoints."
       else
         match validateLayout (snd kv) (String.append "layouts." (fst kv)) with
         | Some msg => Some msg
         | None => rest
         end) None kvs = None
  <-> forall k l, (k, l) ∈ kvs ->
                  Responsive.inObject k breakpoints = true
                  /\ validateLayout l (String.append "layouts." k) = None.
Proof.
  induction kvs as [|[k0 l0] kvs IH]; simpl.
  - split; [intros _ k l H; inversion H | reflexivity].
  - destruct (Responsive.inObject k0 breakpoints) eqn:Ebp; simpl.
    + destruct (validateLayout l0 _) as [msg|] eqn:Ev.
      * split; [discriminate|]. intros H.
        destruct (H k0 l0) as [_ Hn]; [left | congruence].
      * rewrite IH. split.
        -- intros H k l Hin. apply elem_of_cons in Hin as [[= -> ->] | Hin];
             [eauto | apply H, Hin].
        -- intros H k l Hin. apply H. right. exact Hin.
    + split; [discriminate|]. intros H.
      destruct (H k0 l0) as [Ht _]; [left | congruence].
Qed.

(** X15.  The [layouts] validator returns without an exception exactly
    when the prop is an object, each of its keys is found in
    [breakpoints] by [in] (it is a key of [breakpoints], or a name that
    every object inherits, such as [constructor]), and each of its
    layouts passes [validateLayout]. *)
Theorem validateLayouts_accepts (layoutsProp : option (gmap string Layout))
        (breakpoints : gmap string Z) :
  validateLayouts validateLayout layoutsProp breakpoints = None
  <-> exists ls : gmap string Layout,
      layoutsProp = Some ls
      /\ forall k l, ls !! k = Some l ->
                     (is_Some (breakpoints !! k) \/ k ∈ Responsive.inherited)
                     /\ validateLayout l (String.append "layouts." k) = None.
Proof.
  assert (Hin : forall k, Responsive.inObject k breakpoints = true
                          <-> is_Some (breakpoints !! k)
                              \/ k ∈ Responsive.inherited).
  { intros k. unfold Responsive.inObject.
    rewrite orb_true_iff, !bool_decide_eq_true. reflexivity. }
  unfold validateLayouts. destruct layoutsProp as [ls|].
  - rewrite validate_fold. split.
    + intros H. exists ls. split; [reflexivity|].
      intros k l Hk. rewrite <- Hin. apply H, elem_of_map_to_list, Hk.
    + intros (ls' & [= <-] & H) k l Hk. rewrite Hin.
      apply H, elem_of_map_to_list, Hk.
  - split; [discriminate|]. intros (ls & Hls & _). discriminate.
Qed.

End LayoutsValidator.

Lemma componentDidUpdate_same_breakpoint_witness :
  ResponsiveLifecycle.componentDidUpdate sample_resolver sample_synchronizer
    recols_props wide_props lg_state caller_layouts
  = Some (caller_layouts, lg_state, [Responsive.props_onWidthChange 1300 8])
  /\ getColsFromBreakpoint "lg" (Responsive.props (Responsive.cols recols_props))
     = Some 8
  /\ Responsive.stCols lg_state = 12.
Proof.
  destruct (ResponsiveLifecycle.componentDidUpdate sample_resolver
              sample_synchronizer recols_props wide_props lg_state
              caller_layouts) as [[[objs' st'] calls]|] eqn:Hrun;
    [|vm_compute in Hrun; discriminate Hrun].
  destruct (componentDidUpdate_same_breakpoint sample_resolver
              sample_synchronizer recols_props wide_props lg_state
              caller_layouts objs' st' calls Hrun) as (-> & -> & _).
  - vm_compute. reflexivity.
  - split; [|split; [vm_compute; reflexivity | reflexivity]].
    rewrite <- Hrun. vm_compute. reflexivity.
Defined.

Lemma onWidthChange_tracks_breakpoint_witness :
  exists objs' st' calls,
    Responsive.onWidthChange sample_resolver sample_synchronizer
      wide_props wide_props md_state caller_layouts = Some (objs', st', calls)
    /\ Responsive.stBreakpoint st' = "lg"
    /\ ResponsiveLifecycle.consistent
         (Responsive.props (Responsive.cols wide_props)) st'.
Proof.
  destruct (Responsive.onWidthChange sample_resolver sample_synchronizer
              wide_props wide_props md_state caller_layouts)
    as [[[objs' st'] calls]|] eqn:Hrun; [|vm_compute in Hrun; discriminate Hrun].
  destruct (onWidthChange_tracks_breakpoint sample_resolver sample_synchronizer
              wide_props wide_props md_state caller_layouts objs' st' calls Hrun)
    as (Hbp & Hchg & _).
  assert (Hlg : Responsive.stBreakpoint st' = "lg").
  { vm_compute in Hbp. injection Hbp as Hbp. symmetry. exact Hbp. }
  exists objs', st', calls. split; [reflexivity|]. split; [exact Hlg|].
  apply Hchg. rewrite Hlg. discriminate.
Defined.

Lemma generateInitialState_consistent_witness :
  exists st : Responsive.State,
    ResponsiveLifecycle.generateInitialState sample_resolver wide_props true
                                             caller_layouts = Some st
    /\ Responsive.stBreakpoint st = "lg" /\ Responsive.stCols st = 12.
Proof.
  destruct (ResponsiveLifecycle.generateInitialState sample_resolver wide_props
              true caller_layouts) as [st|] eqn:Hrun;
    [|vm_compute in Hrun; discriminate Hrun].
  destruct (generateInitialState_consistent sample_resolver wide_props true
              caller_layouts st Hrun) as [Hbp Hcols].
  exists st. split; [reflexivity|].
  assert (Hlg : Responsive.stBreakpoint st = "lg")
    by (vm_compute in Hbp; injection Hbp as Hbp; symmetry; exact Hbp).
  split; [exact Hlg|].
  unfold ResponsiveLifecycle.consistent in Hcols. rewrite Hlg in Hcols.
  assert (H12 : getColsFromBreakpoint
                  "lg" (Responsive.props (Responsive.cols wide_props))
                = Some 12) by (vm_compute; reflexivity).
  rewrite H12 in Hcols. injection Hcols as Hcols. symmetry. exact Hcols.
Defined.

Lemma getDerivedStateFromProps_adopts_witness :
  exists next : ResponsiveLifecycle.FullState,
    ResponsiveLifecycle.getDerivedStateFromProps sample_resolver wide_props
      caller_layouts (ResponsiveLifecycle.mkFull md_state None) = Some next
    /\ ResponsiveLifecycle.getDerivedStateFromProps sample_resolver wide_props
         [∅] next = None.
Proof.
  destruct (ResponsiveLifecycle.getDerivedStateFromProps sample_resolver
              wide_props caller_layouts
              (ResponsiveLifecycle.mkFull md_state None)) as [next|] eqn:Hrun;
    [|vm_compute in Hrun; discriminate Hrun].
  destruct (getDerivedStateFromProps_adopts sample_resolver wide_props
              caller_layouts _ next Hrun) as (_ & _ & _ & Hlater).
  exists next. split; [reflexivity|]. apply Hlater. reflexivity.
Defined.

Lemma validateLayouts_accepts_witness :
  ResponsiveLifecycle.validateLayouts sample_validateLayout
    (Some {[ "lg" := [Item.plain "a" 0 0 6 2] ]})
    (Responsive.props default_breakpoints) = None
  /\ ResponsiveLifecycle.validateLayouts sample_validateLayout
       (Some {[ "constructor" := [Item.plain "a" 0 0 6 2] ]})
       (Responsive.props default_breakpoints) = None
  /\ Responsive.props default_breakpoints !! "constructor" = None.
Proof.
  split; [|split; [|vm_compute; reflexivity]].
  - apply (proj2 (validateLayouts_accepts sample_validateLayout _ _)).
    eexists. split; [reflexivity|].
    intros k l Hk. apply lookup_singleton_Some in Hk as [<- <-].
    split; [left; vm_compute; eauto | vm_compute; reflexivity].
  - apply (proj2 (validateLayouts_accepts sample_validateLayout _ _)).
    eexists. split; [reflexivity|].
    intros k l Hk. apply lookup_singleton_Some in Hk as [<- <-].
    split; [right; apply (bool_decide_unpack _); vm_compute; exact I
           | vm_compute; reflexivity].
Defined.

(* ------------------------------------------------------------------ *)
(** ** The validators of the size bounds *)

Section SizeValidators.

Import PropTypes.



End SizeValidators.


(* ------------------------------------------------------------------ *)
(** ** The moves of a drag or resize session *)

Section SessionMoves.

Import RGL.

Variable p : Props.

(** A move keeps the item snapshots of the session and calls nothing
    but its own move callback, with the snapshot as the old item and
    with a placeholder. *)
Lemma handle_move (st : State) (ev : Event) :
  isMove ev = true ->
  oldDragItem (fst (handle p st ev)) = oldDragItem st
  /\ oldResizeItem (fst (handle p st ev)) = oldResizeItem st
  /\ Forall (moveCallWith (oldDragItem st) (oldResizeItem st))
            (snd (handle p st ev)).
Proof.
  destruct ev as [i x y | i x y | i x y | i w h | i w h | i w h];
    try discriminate; intros _; simpl.
  - unfold handleDrag.
    destruct (Store.getLayoutItem _ _ i) as [a|]; [|simpl; auto].
    destruct (Store.moveElement _ _ _ _ _ _ _ _ _) as [hp1 modified].
    destruct (Store.compact _ _ _ _) as [hp2 compacted]. simpl.
    repeat split. repeat constructor.
  - unfold handleResize.
    destruct (Store.getLayoutItem _ _ i) as [a|]; [|simpl; auto].
    destruct (Store.compact _ _ _ _) as [hp2 compacted]. simpl.
    repeat split. repeat constructor.
Qed.

(** X16.  Throughout the moves of a session the old item is the
    snapshot taken at the start: in any sequence of drag and resize
    moves, every callback invoked is [onDrag] or [onResize] (never
    [onLayoutChange]), it carries a placeholder, and its old item is
    the [oldDragItem], respectively the [oldResizeItem], the sequence
    began with, however the moves changed the item meanwhile; the two
    item snapshots are the same at the end. *)
Theorem moves_carry_snapshot (st : State) (evs : list Event) :
  forallb isMove evs = true ->
  Forall (moveCallWith (oldDragItem st) (oldResizeItem st))
         (snd (run p st evs))
  /\ oldDragItem (fst (run p st evs)) = oldDragItem st
  /\ oldResizeItem (fst (run p st evs)) = oldResizeItem st.
Proof.
  revert st. induction evs as [|ev evs IH]; intros st Hmoves; simpl.
  - repeat split. constructor.
  - simpl in Hmoves. apply andb_prop in Hmoves as [Hev Hrest].
    destruct (handle_move st ev Hev) as (Hd & Hr & Hcalls).
    destruct (handle p st ev) as [st1 calls1]. simpl in *.
    destruct (IH st1 Hrest) as (Hcalls2 & Hd2 & Hr2).
    destruct (run p st1 evs) as [st2 calls2]. simpl in *.
    rewrite Hd, Hr in Hcalls2.
    split; [apply Forall_app; split; assumption|].
    split; congruence.
Qed.

(** The snapshot a start takes is the item as it reads then. *)
Lemma handleResizeStart_snapshot (st : State) (i : string) (w h : Z)
      (a : Store.loc) :
  Store.getLayoutItem (store st) (layoutState st) i = Some a ->
  oldResizeItem (fst (handleResizeStart p st i w h))
  = Some (Store.get (store st) a).
Proof.
  intros H. unfold handleResizeStart. rewrite H. simpl.
  rewrite cloneLayoutItem_id. reflexivity.
Qed.

End SessionMoves.

Lemma moves_carry_snapshot_witness :
  let st := fst (RGL.handleResizeStart plain_props single_item "a" 1 1) in
  Forall (moveCallWith None (Some (Item.plain "a" 0 0 1 1)))
         (snd (RGL.run plain_props st
                 [RGL.Resize "a" 2 1; RGL.Resize "a" 3 2; RGL.Resize "a" 2 2]))
  /\ length (snd (RGL.run plain_props st
                    [RGL.Resize "a" 2 1; RGL.Resize "a" 3 2; RGL.Resize "a" 2 2]))
     = 3%nat.
Proof.
  split; [|vm_compute; reflexivity].
  apply (moves_carry_snapshot plain_props
           (fst (RGL.handleResizeStart plain_props single_item "a" 1 1))
           [RGL.Resize "a" 2 1; RGL.Resize "a" 3 2; RGL.Resize "a" 2 2]).
  reflexivity.
Defined.
